(** * metal.js: Component surfaces, their content cache and the lifecycle

    A shallow embedding of [src/component/Component.js] and of the two
    string helpers it relies on ([string.hashCode] and
    [string.collapseBreakingSpaces]).

    JavaScript strings are sequences of UTF-16 code units; they are
    modelled as lists of code units ([N]).  Every statement below is
    proved for all such lists, hence for all JavaScript strings. *)

From Stdlib Require Import String Ascii.
From Stdlib Require Import ZArith NArith Lia List.
From stdpp Require Import base gmap sets list.

Set Warnings "-clear-no-such-hyp".

Open Scope Z_scope.

Definition jsstring := list N.

(** The code units of a literal. *)
Definition js (s : String.string) : jsstring :=
  Ascii.N_of_ascii <$> String.list_ascii_of_string s.

(** ** The string helpers *)

Module string.

(** The character class [[\t\r\n ]] of both regular expressions. *)
Definition isBreakingSpace (c : N) : bool :=
  ((c =? 9) || (c =? 13) || (c =? 10) || (c =? 32))%N.

Definition SPACE : N := 32%N.

(** [str.replace(/[\t\r\n ]+/g, ' ')]: the pattern is greedy, so each
    match is a maximal run; [inRun] tells that the scan is inside a run
    whose replacement has already been emitted. *)
Fixpoint replaceRuns (inRun : bool) (str : jsstring) : jsstring :=
  match str with
  | [] => []
  | c :: rest =>
      if isBreakingSpace c
      then (if inRun then replaceRuns true rest
            else SPACE :: replaceRuns true rest)
      else c :: replaceRuns false rest
  end.

(** First alternative of [/^[\t\r\n ]+|[\t\r\n ]+$/g]: it can only match
    at offset 0 and then takes the whole leading run. *)
Fixpoint dropLeading (str : jsstring) : jsstring :=
  match str with
  | [] => []
  | c :: rest => if isBreakingSpace c then dropLeading rest else str
  end.

(** Second alternative: at each offset, [[\t\r\n ]+$] matches exactly
    when the non-empty remainder consists of breaking spaces only. *)
Fixpoint dropTrailing (str : jsstring) : jsstring :=
  match str with
  | [] => []
  | c :: rest =>
      if forallb isBreakingSpace str then [] else c :: dropTrailing rest
  end.

Definition collapseBreakingSpaces (str : jsstring) : jsstring :=
  dropTrailing (dropLeading (replaceRuns false str)).

(** The loop of [string.hashCode].  [%] is JavaScript's remainder
    ([Z.rem]).  For code units below 2^16 the intermediate value
    [31 * hash + c] stays below 2^53, so the double arithmetic of the
    source is exact and integer arithmetic models it. *)
Fixpoint hashCode_loop (hash : Z) (val : jsstring) : Z :=
  match val with
  | [] => hash
  | c :: rest =>
      hashCode_loop (Z.rem (31 * hash + Z.of_N c) 4294967296) rest
  end.

Definition hashCode (val : jsstring) : Z := hashCode_loop 0 val.

(** JavaScript's [str.substring(indexStart, indexEnd)] for integer
    indices: both are clamped to the range from 0 to the length, an
    omitted end is the length, and the two are swapped when the start
    exceeds the end. *)
Definition clampIndex (str : jsstring) (index : Z) : nat :=
  Z.to_nat (Z.min (Z.max index 0) (Z.of_nat (length str))).

Definition substring (str : jsstring) (indexStart : Z) (indexEnd : option Z)
    : jsstring :=
  let a := clampIndex str indexStart in
  let b := match indexEnd with
           | Some e => clampIndex str e
           | None => length str
           end in
  take (Nat.max a b - Nat.min a b)%nat (drop (Nat.min a b) str).

Definition replaceInterval (str : jsstring) (start end_ : Z) (value : jsstring)
    : jsstring :=
  substring str 0 (Some start) ++ value ++ substring str end_ None.

End string.

(** The reading of the normalizer's documentation: split the string into
    its words (maximal runs of characters that are not breaking spaces)
    and join them with single spaces. *)
Fixpoint words_from (cur : jsstring) (str : jsstring) : list jsstring :=
  match str with
  | [] => match cur with [] => [] | _ => [cur] end
  | c :: rest =>
      if string.isBreakingSpace c
      then match cur with
           | [] => words_from [] rest
           | _ => cur :: words_from [] rest
           end
      else words_from (cur ++ [c]) rest
  end.

Definition words (str : jsstring) : list jsstring := words_from [] str.

Fixpoint unwords (ws : list jsstring) : jsstring :=
  match ws with
  | [] => []
  | [w] => w
  | w :: rest => w ++ string.SPACE :: unwords rest
  end.

(** A string starts at a word boundary when it is empty or starts with a
    breaking space. *)
Definition atBoundary (str : jsstring) : bool :=
  match str with
  | [] => true
  | c :: _ => string.isBreakingSpace c
  end.

(** ** JavaScript values and the DOM *)

(** Values handed around as surface content and as attribute values:
    [undefined], [null], strings, and references to anything else (DOM
    nodes, fragments, plain objects). *)
Inductive jsval :=
| JSUndefined
| JSNull
| JSString (s : jsstring)
| JSObject (o : nat).

(** Modelled from the spec: [core.isDefAndNotNull] of the core module,
    which is not under src/: "a no-op if content is undefined or null".
    The test [core.isString] of the same module is the match on
    [JSString]. *)
Module core.
Definition isDefAndNotNull (val : jsval) : bool :=
  match val with JSUndefined | JSNull => false | _ => true end.
End core.

(** DOM elements are referred to by handles. *)
Definition ref := nat.

(** An argument of type [(string|Element)=]. *)
Inductive ElementArg :=
| NoElement
| Selector (s : jsstring)
| Element (el : ref).

(** The browser DOM and the helpers of the [dom] and [html] modules are
    not under src/; the component is verified against their interface,
    for every implementation of it.  [dom_nullElementThrows] says whether
    [dom.removeChildren] and [dom.append] raise a [TypeError] when handed
    [null] in place of an element. *)
Class DomAdapter (Dom : Type) := {
  document_getElementById : jsstring -> Dom -> option ref;
  element_querySelectorId : ref -> jsstring -> Dom -> option ref;
  document_createElement : jsstring -> Dom -> ref * Dom;
  document_body : Dom -> ref;
  element_setId : ref -> jsstring -> Dom -> Dom;
  element_parentNode : ref -> Dom -> option ref;
  element_innerHTML : ref -> Dom -> jsstring;
  node_removeChild : ref -> ref -> Dom -> Dom;
  node_insertBefore : ref -> ref -> option ref -> Dom -> Dom;
  dom_toElement : ElementArg -> Dom -> option ref;
  dom_removeChildren : ref -> Dom -> Dom;
  dom_append : ref -> jsval -> Dom -> Dom;
  dom_nullElementThrows : bool;
  html_compress : jsstring -> jsstring
}.

(** ** The component *)

(** A surface configuration object.  A property that is absent
    ([undefined]) is [None]; an absent [renderAttrs] is the empty list,
    over which [for (var i in attrs)] does not iterate either.  Every
    registered id holds a configuration object of its own. *)
Module Surface.
Record t := mk {
  cacheState : option Z;
  element : option ref;
  renderAttrs : list jsstring
}.

Definition set_cacheState (v : Z) (s : t) : t :=
  mk (Some v) (element s) (renderAttrs s).
Definition set_element (el : ref) (s : t) : t :=
  mk (cacheState s) (Some el) (renderAttrs s).
End Surface.

(** One entry of [event.changes]. *)
Record Change := { newVal : jsval; prevVal : jsval }.

(** What can be thrown: [new Error(message)], and the [TypeError] that the
    runtime raises on a property access on [null]. *)
Inductive Exception :=
| Error (message : jsstring)
| TypeError.

Inductive Hook := Attached | Detached | RenderInternal | DecorateInternal.

(** What the component does to its environment, in order. *)
Inductive Event :=
| RemoveChildren (el : ref)
| Append (el : ref) (content : jsval)
| RemoveChild (parent child : ref)
| InsertBefore (parent child : ref) (sibling : option ref)
| CreateElement (el : ref)
| HookCall (h : Hook)
| SyncCall (attr : jsstring) (newVal prevVal : jsval).

Module Component.

Module Cache.
Definition NOT_CACHEABLE : Z := -1.
Definition NOT_INITIALIZED : Z := -2.
End Cache.

Module Error.
Definition ALREADY_RENDERED : jsstring := js "Component already rendered"%string.
End Error.

(** The fields of a component instance.  [attrs] holds the values read
    as [this[attr]]. *)
Record instance := mk {
  id : jsstring;
  element : ref;
  attrs : gmap jsstring jsval;
  inDocument : bool;
  surfaces_ : gmap jsstring Surface.t;
  surfacesRenderAttrs_ : gmap jsstring (gset jsstring)
}.

Definition set_attrs (m : gmap jsstring jsval) (c : instance) : instance :=
  mk (id c) (element c) m (inDocument c) (surfaces_ c) (surfacesRenderAttrs_ c).
Definition set_inDocument (b : bool) (c : instance) : instance :=
  mk (id c) (element c) (attrs c) b (surfaces_ c) (surfacesRenderAttrs_ c).
Definition set_surfaces_ (m : gmap jsstring Surface.t) (c : instance) : instance :=
  mk (id c) (element c) (attrs c) (inDocument c) m (surfacesRenderAttrs_ c).
Definition set_surfacesRenderAttrs_ (m : gmap jsstring (gset jsstring))
    (c : instance) : instance :=
  mk (id c) (element c) (attrs c) (inDocument c) (surfaces_ c) m.

Section WithDom.
Context {Dom : Type} `{!DomAdapter Dom}.

(** The component together with the document it lives in. *)
Record World := mkWorld { this : instance; dom : Dom }.

(** What a concrete widget type supplies: its merged static hints
    (read from [this.constructor]) and its methods.  The lifecycle
    hooks and the synchronization methods are arbitrary state changes;
    [getSurfaceContent] produces the content of a surface from the
    attribute values; [syncMethod attr] is [this['sync' + Attr]] when
    that is a function. *)
Record Widget := {
  ATTRS_SYNC_MERGED : gset jsstring;
  SURFACE_TAG_NAME_MERGED : jsstring;
  attached : World -> World;
  detached : World -> World;
  renderInternal : World -> World;
  decorateInternal : World -> World;
  getSurfaceContent : jsstring -> gmap jsstring jsval -> jsval;
  syncMethod : jsstring -> option (jsval -> jsval -> World -> World)
}.

(** A call either returns or throws; both leave a world behind and a
    trace of what was done. *)
Inductive Outcome (A : Type) :=
| Returned (a : A) (w : World) (t : list Event)
| Thrown (e : Exception) (w : World) (t : list Event).
Global Arguments Returned {A} a w t.
Global Arguments Thrown {A} e w t.

Definition M (A : Type) : Type := World -> Outcome A.

Global Instance M_ret : MRet M := fun A a w => Returned a w [].
Global Instance M_bind : MBind M := fun A B f m w =>
  match m w with
  | Returned a w1 t1 =>
      match f a w1 with
      | Returned b w2 t2 => Returned b w2 (t1 ++ t2)
      | Thrown e w2 t2 => Thrown e w2 (t1 ++ t2)
      end
  | Thrown e w1 t1 => Thrown e w1 t1
  end.

Definition throw {A} (e : Exception) : M A := fun w => Thrown e w [].
Definition read {A} (f : World -> A) : M A := fun w => Returned (f w) w [].
Definition update (f : World -> World) : M unit := fun w => Returned tt (f w) [].
Definition emit (e : Event) : M unit := fun w => Returned tt w [e].

Definition updateThis (f : instance -> instance) : M unit :=
  update (fun w => mkWorld (f (this w)) (dom w)).
Definition updateDom (f : Dom -> Dom) : M unit :=
  update (fun w => mkWorld (this w) (f (dom w))).

(** [for (var k in obj) body], given the keys of [obj].  The keys of a
    finite map are enumerated in the order of the map, which need not
    be the insertion order of the JavaScript object; no statement
    below depends on the order. *)
Fixpoint forIn {K} (keys : list K) (body : K -> M unit) : M unit :=
  match keys with
  | [] => mret tt
  | k :: rest => body k ;; forIn rest body
  end.

(** [surface.<prop> = v] on the object held in [surfaces_] under
    [surfaceId]. *)
Definition updateSurface (surfaceId : jsstring)
    (f : Surface.t -> Surface.t) : M unit :=
  updateThis (fun c => set_surfaces_ (alter f surfaceId (surfaces_ c)) c).

Variable widget : Widget.

Definition getSurface (surfaceId : jsstring) : M (option Surface.t) :=
  read (fun w => surfaces_ (this w) !! surfaceId).

Definition cacheSurfaceRenderAttrs_ (surfaceId : jsstring) : M unit :=
  surface ← getSurface surfaceId;
  match surface with
  | None => throw TypeError
  | Some s =>
      forIn (Surface.renderAttrs s) (fun attr =>
        updateThis (fun c =>
          set_surfacesRenderAttrs_
            (<[attr := {[surfaceId]} ∪ default ∅ (surfacesRenderAttrs_ c !! attr)]>
               (surfacesRenderAttrs_ c)) c))
  end.

Definition addSurface (surfaceId : jsstring)
    (opt_config : option Surface.t) : M unit :=
  updateThis (fun c =>
    set_surfaces_
      (<[surfaceId :=
           default (Surface.mk (Some Cache.NOT_INITIALIZED) None []) opt_config]>
         (surfaces_ c)) c) ;;
  cacheSurfaceRenderAttrs_ surfaceId.

Definition addSurfaces (configs : gmap jsstring (option Surface.t)) : M unit :=
  forIn (map_to_list configs) (fun '(surfaceId, config) =>
    addSurface surfaceId config).

Definition addSurfacesFromStaticHint_
    (SURFACES_MERGED : gmap jsstring (option Surface.t)) : M unit :=
  updateThis (set_surfaces_ ∅) ;;
  updateThis (set_surfacesRenderAttrs_ ∅) ;;
  addSurfaces SURFACES_MERGED.

Definition clearSurfacesCache_ : M unit :=
  keys ← read (fun w => (map_to_list (surfaces_ (this w))).*1);
  forIn keys (fun surfaceId =>
    surface ← getSurface surfaceId;
    match surface with
    | None => throw TypeError
    | Some _ =>
        updateSurface surfaceId (Surface.set_cacheState Cache.NOT_INITIALIZED)
    end).

Definition computeSurfaceCacheState_ (value : jsval) : Z :=
  match value with
  | JSString s => string.hashCode s
  | _ => Cache.NOT_CACHEABLE
  end.

Definition makeSurfaceId_ (surfaceId : jsstring) : M jsstring :=
  read (fun w => id (this w) ++ js "-"%string ++ surfaceId).

Definition createSurfaceElement_ (surfaceElementId : jsstring) : M ref :=
  el ← (fun w =>
          let '(el, d) :=
            document_createElement (SURFACE_TAG_NAME_MERGED widget) (dom w) in
          Returned el (mkWorld (this w) d) [CreateElement el]);
  updateDom (element_setId el surfaceElementId) ;;
  mret el.

Definition getSurfaceElement (surfaceId : jsstring) : M (option ref) :=
  surface ← getSurface surfaceId;
  match surface with
  | None => mret None
  | Some s =>
      match Surface.element s with
      | Some el => mret (Some el)
      | None =>
          surfaceElementId ← makeSurfaceId_ surfaceId;
          byId ← read (fun w => document_getElementById surfaceElementId (dom w));
          el ← match byId with
               | Some el => mret el
               | None =>
                   bySel ← read (fun w =>
                     element_querySelectorId (element (this w))
                       surfaceElementId (dom w));
                   match bySel with
                   | Some el => mret el
                   | None => createSurfaceElement_ surfaceElementId
                   end
               end;
          updateSurface surfaceId (Surface.set_element el) ;;
          mret (Some el)
      end
  end.

Definition computeSurfacesCacheStateFromDom_ : M unit :=
  keys ← read (fun w => (map_to_list (surfaces_ (this w))).*1);
  forIn keys (fun surfaceId =>
    surface ← getSurface surfaceId;
    el ← getSurfaceElement surfaceId;
    match el, surface with
    | Some el, Some _ =>
        innerHTML ← read (fun w => element_innerHTML el (dom w));
        updateSurface surfaceId
          (Surface.set_cacheState
             (computeSurfaceCacheState_ (JSString (html_compress innerHTML))))
    | _, _ => throw TypeError
    end).

Definition runHook (h : Hook) (f : World -> World) : M unit :=
  emit (HookCall h) ;; update f.

Definition detach : M unit :=
  el ← read (fun w => element (this w));
  parent ← read (fun w => element_parentNode el (dom w));
  match parent with
  | None => throw TypeError
  | Some p =>
      updateDom (node_removeChild p el) ;;
      emit (RemoveChild p el) ;;
      updateThis (set_inDocument false) ;;
      runHook Detached (detached widget)
  end.

Definition fireAttrChange_ (attr : jsstring) (opt_change : option Change) : M unit :=
  match syncMethod widget attr with
  | Some fn =>
      change ← match opt_change with
               | Some change => mret change
               | None =>
                   read (fun w =>
                     {| newVal := default JSUndefined (attrs (this w) !! attr);
                        prevVal := JSUndefined |})
               end;
      emit (SyncCall attr (newVal change) (prevVal change)) ;;
      update (fn (newVal change) (prevVal change))
  | None => mret tt
  end.

Definition fireAttrsChanges_ (changes : gmap jsstring (option Change)) : M unit :=
  forIn (map_to_list changes) (fun '(attr, change) =>
    if decide (attr ∈ ATTRS_SYNC_MERGED widget)
    then fireAttrChange_ attr change
    else mret tt).

(** Modelled from the spec: [object.mixin] of the object module, which
    is not under src/, applied to the index entries of the changed
    attributes: "union of index[attr] for every attribute name present
    in the given change set; attributes with no indexed surfaces
    contribute nothing". *)
Definition object_mixin (sources : list (option (gset jsstring))) : gset jsstring :=
  ⋃ (default ∅ <$> sources).

Definition getModifiedSurfacesFromChanges_
    (changes : gmap jsstring (option Change)) : M (gset jsstring) :=
  read (fun w =>
    object_mixin
      ((fun attr => surfacesRenderAttrs_ (this w) !! attr)
         <$> (map_to_list changes).*1)).

Definition getSurfaceContent_ (surfaceId : jsstring) : M jsval :=
  read (fun w => getSurfaceContent widget surfaceId (attrs (this w))).

(** [dom.removeChildren(el)] and [dom.append(el, content)] with the
    value that [getSurfaceElement] returned. *)
Definition removeChildren (el : option ref) : M unit :=
  match el with
  | Some el => updateDom (dom_removeChildren el) ;; emit (RemoveChildren el)
  | None => if dom_nullElementThrows then throw TypeError else mret tt
  end.

Definition append (el : option ref) (content : jsval) : M unit :=
  match el with
  | Some el => updateDom (dom_append el content) ;; emit (Append el content)
  | None => if dom_nullElementThrows then throw TypeError else mret tt
  end.

Definition renderSurfaceContent (surfaceId : jsstring) (content : jsval) : M unit :=
  if core.isDefAndNotNull content then
    surface ← getSurface surfaceId;
    let cacheState := computeSurfaceCacheState_ content in
    stale ←
      (if bool_decide (cacheState = Cache.NOT_INITIALIZED) then mret true
       else if bool_decide (cacheState = Cache.NOT_CACHEABLE) then mret true
       else match surface with
            | None => throw TypeError
            | Some s => mret (bool_decide (Some cacheState <> Surface.cacheState s))
            end);
    (if stale : bool then
       el ← getSurfaceElement surfaceId;
       removeChildren el ;;
       append el content
     else mret tt) ;;
    match surface with
    | None => throw TypeError
    | Some _ => updateSurface surfaceId (Surface.set_cacheState cacheState)
    end
  else mret tt.

Definition renderSurfacesContent_ (surfaces : list jsstring) : M unit :=
  forIn surfaces (fun surfaceId =>
    content ← getSurfaceContent_ surfaceId;
    renderSurfaceContent surfaceId content).

Definition handleAttributesChanges_ (changes : gmap jsstring (option Change)) : M unit :=
  inDoc ← read (fun w => inDocument (this w));
  (if inDoc : bool then
     modified ← getModifiedSurfacesFromChanges_ changes;
     renderSurfacesContent_ (elements modified)
   else mret tt) ;;
  fireAttrsChanges_ changes.

Definition removeSurface (surfaceId : jsstring) : M unit :=
  el ← getSurfaceElement surfaceId;
  match el with
  | Some el =>
      parent ← read (fun w => element_parentNode el (dom w));
      match parent with
      | Some p => updateDom (node_removeChild p el) ;; emit (RemoveChild p el)
      | None => mret tt
      end
  | None => mret tt
  end ;;
  updateThis (fun c => set_surfaces_ (delete surfaceId (surfaces_ c)) c).

Definition truthy (arg : ElementArg) : bool :=
  match arg with
  | NoElement => false
  | Selector s => bool_decide (s <> [])
  | Element _ => true
  end.

Definition renderElement_ (opt_parentElement opt_siblingElement : ElementArg) : M unit :=
  el ← read (fun w => element (this w));
  componentId ← read (fun w => id (this w));
  updateDom (element_setId el componentId) ;;
  hasParent ← read (fun w => element_parentNode el (dom w));
  if truthy opt_siblingElement || bool_decide (hasParent = None) then
    parent ← read (fun w =>
      default (document_body (dom w)) (dom_toElement opt_parentElement (dom w)));
    sibling ← read (fun w => dom_toElement opt_siblingElement (dom w));
    updateDom (node_insertBefore parent el sibling) ;;
    emit (InsertBefore parent el sibling)
  else mret tt.

Definition attach (opt_parentElement opt_siblingElement : ElementArg) : M unit :=
  renderElement_ opt_parentElement opt_siblingElement ;;
  updateThis (set_inDocument true) ;;
  runHook Attached (attached widget).

(** [ATTRS_SYNC_MERGED] maps every name to [undefined]. *)
Definition syncChanges : gmap jsstring (option Change) :=
  gset_to_gmap None (ATTRS_SYNC_MERGED widget).

Definition decorate : M unit :=
  inDoc ← read (fun w => inDocument (this w));
  if inDoc : bool then throw (Error Error.ALREADY_RENDERED)
  else
    runHook DecorateInternal (decorateInternal widget) ;;
    computeSurfacesCacheStateFromDom_ ;;
    keys ← read (fun w => (map_to_list (surfaces_ (this w))).*1);
    renderSurfacesContent_ keys ;;
    fireAttrsChanges_ syncChanges ;;
    attach NoElement NoElement.

Definition render (opt_parentElement opt_siblingElement : ElementArg) : M unit :=
  inDoc ← read (fun w => inDocument (this w));
  if inDoc : bool then throw (Error Error.ALREADY_RENDERED)
  else
    runHook RenderInternal (renderInternal widget) ;;
    clearSurfacesCache_ ;;
    keys ← read (fun w => (map_to_list (surfaces_ (this w))).*1);
    renderSurfacesContent_ keys ;;
    fireAttrsChanges_ syncChanges ;;
    attach opt_parentElement opt_siblingElement.

End WithDom.

Global Arguments World Dom : clear implicits.
Global Arguments Widget Dom : clear implicits.
Global Arguments M Dom A : clear implicits.

End Component.

(** ** A small document, to run the component on

    One implementation of the DOM interface: a list of elements addressed
    by position, each with its [id] attribute, its parent and the content
    appended to it.  Element 0 is the document body. *)
Module SimpleDom.

Record node := mkNode {
  nodeId : jsstring;
  parent : option ref;
  content : list jsval
}.

Definition t := list node.

Definition empty : t := [mkNode [] None []].

Definition parentNode (el : ref) (d : t) : option ref :=
  d !! el ≫= parent.

(** Whether [anc] is reached from [el] by following at most [fuel]
    parent links. *)
Fixpoint hasAncestor (fuel : nat) (anc el : ref) (d : t) : bool :=
  match fuel with
  | O => false
  | S fuel =>
      match parentNode el d with
      | Some p => bool_decide (p = anc) || hasAncestor fuel anc p d
      | None => false
      end
  end.

Fixpoint findFrom (i : ref) (p : ref -> node -> bool) (l : list node) : option ref :=
  match l with
  | [] => None
  | n :: rest => if p i n then Some i else findFrom (S i) p rest
  end.

Definition findId (root : ref) (elementId : jsstring) (d : t) : option ref :=
  findFrom 0%nat
    (fun i n => bool_decide (nodeId n = elementId) && hasAncestor (length d) root i d)
    d.

Definition getElementById (elementId : jsstring) (d : t) : option ref :=
  findId 0%nat elementId d.

Definition createElement (tag : jsstring) (d : t) : ref * t :=
  (length d, d ++ [mkNode [] None []]).

Definition setId (el : ref) (elementId : jsstring) (d : t) : t :=
  alter (fun n => mkNode elementId (parent n) (content n)) el d.

Definition setParent (p : option ref) (el : ref) (d : t) : t :=
  alter (fun n => mkNode (nodeId n) p (content n)) el d.

Definition removeChild (p el : ref) (d : t) : t :=
  if bool_decide (parentNode el d = Some p) then setParent None el d else d.

Definition insertBefore (p el : ref) (sibling : option ref) (d : t) : t :=
  setParent (Some p) el d.

Definition removeChildren (el : ref) (d : t) : t :=
  alter (fun n => mkNode (nodeId n) (parent n) []) el
    ((fun n => if bool_decide (parent n = Some el)
               then mkNode (nodeId n) None (content n) else n) <$> d).

Definition append (el : ref) (c : jsval) (d : t) : t :=
  alter (fun n => mkNode (nodeId n) (parent n) (content n ++ [c])) el d.

Definition innerHTML (el : ref) (d : t) : jsstring :=
  match d !! el with
  | Some n =>
      concat ((fun c => match c with JSString s => s | _ => [] end) <$> content n)
  | None => []
  end.

Definition toElement (arg : ElementArg) (d : t) : option ref :=
  match arg with
  | NoElement => None
  | Selector s => getElementById s d
  | Element el => Some el
  end.

#[global] Instance adapter : DomAdapter t := {|
  document_getElementById := getElementById;
  element_querySelectorId := findId;
  document_createElement := createElement;
  document_body := fun _ => 0%nat;
  element_setId := setId;
  element_parentNode := parentNode;
  element_innerHTML := innerHTML;
  node_removeChild := removeChild;
  node_insertBefore := insertBefore;
  dom_toElement := toElement;
  dom_removeChildren := removeChildren;
  dom_append := append;
  dom_nullElementThrows := true;
  html_compress := string.collapseBreakingSpaces
|}.

End SimpleDom.

(** ** A sample widget

    A component with id ["c"], root element 1 and the surfaces
    [a: {renderAttrs: ['foo']}] and [b: {renderAttrs: ['bar']}], whose
    content is the value of the attribute of the same name; [foo] is a
    synchronized attribute with a [syncFoo] method that does nothing. *)
Module Sample.
Import Component.

Definition a : jsstring := js "a"%string.
Definition b : jsstring := js "b"%string.
Definition foo : jsstring := js "foo"%string.
Definition bar : jsstring := js "bar"%string.
Definition Aa : jsstring := js "Aa"%string.
Definition BB : jsstring := js "BB"%string.

Definition widget : Widget SimpleDom.t := {|
  ATTRS_SYNC_MERGED := {[foo]};
  SURFACE_TAG_NAME_MERGED := js "div"%string;
  attached := fun w => w;
  detached := fun w => w;
  renderInternal := fun w => w;
  decorateInternal := fun w => w;
  getSurfaceContent := fun surfaceId attrs =>
    if bool_decide (surfaceId = a) then default JSUndefined (attrs !! foo)
    else if bool_decide (surfaceId = b) then default JSUndefined (attrs !! bar)
    else JSUndefined;
  syncMethod := fun attr =>
    if bool_decide (attr = foo) then Some (fun _ _ w => w) else None
|}.

Definition SURFACES_MERGED : gmap jsstring (option Surface.t) :=
  {[ a := Some (Surface.mk None None [foo]);
     b := Some (Surface.mk None None [bar]) ]}.

(** The state right after construction, before [render]. *)
Definition created : World SimpleDom.t :=
  match
    addSurfacesFromStaticHint_ SURFACES_MERGED
      (mkWorld
         (mk (js "c"%string) 1%nat {[ foo := JSString Aa; bar := JSString BB ]} false ∅ ∅)
         (SimpleDom.empty ++ [SimpleDom.mkNode [] None []]))
  with
  | Returned _ w _ => w
  | Thrown _ w _ => w
  end.

(** The state after [render()]. *)
Definition rendered : World SimpleDom.t :=
  match render widget NoElement NoElement created with
  | Returned _ w _ => w
  | Thrown _ w _ => w
  end.

(** The rendered component after [foo] has been set to "new". *)
Definition fooChanged : World SimpleDom.t :=
  mkWorld
    (set_attrs (<[foo := JSString (js "new"%string)]> (attrs (this rendered)))
       (this rendered))
    (dom rendered).

(** The rendered component after [addSurface('a', {renderAttrs: ['bar']})]. *)
Definition reregistered : World SimpleDom.t :=
  match addSurface a (Some (Surface.mk None None [bar])) rendered with
  | Returned _ w _ | Thrown _ w _ => w
  end.

(** A batch in which [foo] changes from "Aa" to "new". *)
Definition changedFoo : gmap jsstring Change :=
  {[ foo := {| newVal := JSString (js "new"%string); prevVal := JSString Aa |} ]}.


End Sample.

(** ** Vocabulary of the statements *)

(** The sum in the documentation of [string.hashCode]:
    [s[0]*31^(n-1) + s[1]*31^(n-2) + ... + s[n-1]]. *)
Fixpoint hashSum (val : jsstring) : Z :=
  match val with
  | [] => 0
  | c :: rest => Z.of_N c * 31 ^ Z.of_nat (length rest) + hashSum rest
  end.

(** A word: not empty and free of breaking spaces. *)
Definition wordlike (w : jsstring) : Prop :=
  w <> [] /\ Forall (fun c => string.isBreakingSpace c = false) w.

(** A normal form: words joined by single spaces. *)
Definition normalized (str : jsstring) : Prop :=
  exists ws, Forall wordlike ws /\ str = unwords ws.

Section Vocabulary.
Import Component.
Context {Dom : Type} `{!DomAdapter Dom}.
Implicit Types (w : World Dom) (surfaceId : jsstring) (content : jsval).

(** The world after [surfaces_[surfaceId]] has become [s] and the
    document [d]. *)
Definition withSurface w surfaceId (s : Surface.t) (d : Dom) : World Dom :=
  mkWorld (set_surfaces_ (<[surfaceId := s]> (surfaces_ (this w))) (this w)) d.

(** Content is stale for a surface when its fingerprint is a sentinel
    or differs from the stored cache state. *)
Definition stale (s : Surface.t) content : Prop :=
  computeSurfaceCacheState_ content = Cache.NOT_INITIALIZED \/
  computeSurfaceCacheState_ content = Cache.NOT_CACHEABLE \/
  Surface.cacheState s <> Some (computeSurfaceCacheState_ content).


(** The render-attribute index agrees with the registry: it lists a
    surface under an attribute exactly when that surface is registered
    with the attribute among its [renderAttrs]. *)
Definition index_agrees (c : instance) : Prop :=
  forall (attr surfaceId : jsstring),
    surfaceId ∈ default ∅ (surfacesRenderAttrs_ c !! attr) <->
    exists s, surfaces_ c !! surfaceId = Some s /\ attr ∈ Surface.renderAttrs s.

End Vocabulary.

(** ** The sample widget, taken out of the document again

    The rendered sample component after [detach()]: its surfaces still
    hold their elements and the content rendered into them, and
    [inDocument] is [false], so that [decorate] can run on it. *)
Module SampleDetached.
Import Component.

Definition world : World SimpleDom.t :=
  match detach Sample.widget Sample.rendered with
  | Returned _ w _ | Thrown _ w _ => w
  end.

End SampleDetached.
(** ** Facts about the string helpers *)

Example hashCode_Aa : string.hashCode [65; 97]%N = 2112.
Proof. reflexivity. Qed.

Example collapse_example :
  string.collapseBreakingSpaces [32; 97; 9; 10; 98; 32; 32]%N = [97; 32; 98]%N.
Proof. reflexivity. Qed.

Example words_example :
  words [32; 97; 9; 10; 98; 32; 32]%N = [[97]; [98]]%N.
Proof. reflexivity. Qed.

Section StringFacts.
Import string.

Lemma hashCode_loop_range (val : jsstring) (hash : Z) :
  0 <= hash < 4294967296 ->
  0 <= hashCode_loop hash val < 4294967296.
Proof.
  revert hash. induction val as [|c rest IH]; intros hash Hh; simpl.
  - exact Hh.
  - apply IH. rewrite Z.rem_mod_nonneg by lia.
    apply Z.mod_pos_bound. lia.
Qed.

Lemma hashCode_range (val : jsstring) : 0 <= hashCode val < 4294967296.
Proof. apply hashCode_loop_range. lia. Qed.

Lemma replaceRuns_all_spaces (b : bool) (str : jsstring) :
  forallb isBreakingSpace (replaceRuns b str) = forallb isBreakingSpace str.
Proof.
  revert b. induction str as [|c rest IH]; intros b; simpl; [done|].
  destruct (isBreakingSpace c) eqn:Hc.
  - destruct b; simpl; rewrite IH; done.
  - simpl. rewrite Hc. done.
Qed.

Lemma dropLeading_replaceRuns (str : jsstring) :
  dropLeading (replaceRuns false str) = replaceRuns true str.
Proof.
  destruct str as [|c rest]; simpl; [done|].
  destruct (isBreakingSpace c) eqn:Hc; simpl.
  - clear c Hc. induction rest as [|d rest IH]; simpl; [done|].
    destruct (isBreakingSpace d) eqn:Hd; simpl; [exact IH|].
    rewrite Hd. done.
  - rewrite Hc. done.
Qed.

Lemma collapseBreakingSpaces_unfold (str : jsstring) :
  collapseBreakingSpaces str = dropTrailing (replaceRuns true str).
Proof. unfold collapseBreakingSpaces. by rewrite dropLeading_replaceRuns. Qed.

Lemma words_from_cur (str cur : jsstring) :
  cur <> [] ->
  words_from cur str =
    if atBoundary str then cur :: words str
    else match words str with
         | w :: r => (cur ++ w) :: r
         | [] => [cur]
         end.
Proof.
  unfold words. revert cur.
  induction str as [|c rest IH]; intros cur Hcur; simpl.
  - destruct cur; done.
  - destruct (isBreakingSpace c) eqn:Hc.
    + destruct cur; done.
    + rewrite (IH (cur ++ [c])) by (destruct cur; done).
      rewrite (IH [c]) by done.
      destruct (atBoundary rest); [done|].
      destruct (words_from [] rest); simpl; [done|].
      by rewrite <- app_assoc.
Qed.

Lemma words_cons_space (c : N) (rest : jsstring) :
  isBreakingSpace c = true -> words (c :: rest) = words rest.
Proof. intros Hc. unfold words. simpl. by rewrite Hc. Qed.

Lemma words_cons_char (c : N) (rest : jsstring) :
  isBreakingSpace c = false ->
  words (c :: rest) =
    if atBoundary rest then [c] :: words rest
    else match words rest with
         | w :: r => (c :: w) :: r
         | [] => [[c]]
         end.
Proof.
  intros Hc. unfold words at 1. simpl. rewrite Hc. simpl.
  by rewrite words_from_cur.
Qed.

Lemma words_nil_spaces (str : jsstring) :
  words str = [] <-> forallb isBreakingSpace str = true.
Proof.
  induction str as [|c rest IH]; [done|].
  simpl. destruct (isBreakingSpace c) eqn:Hc.
  - by rewrite words_cons_space.
  - rewrite words_cons_char by done. simpl.
    destruct (atBoundary rest); [done|]. by destruct (words rest).
Qed.

(** What the two scans compute, in terms of the words of the input. *)
Lemma dropTrailing_replaceRuns (str : jsstring) :
  dropTrailing (replaceRuns true str) = unwords (words str) /\
  dropTrailing (replaceRuns false str) =
    match str with
    | [] => []
    | c :: _ =>
        if isBreakingSpace c
        then match words str with
             | [] => []
             | _ => SPACE :: unwords (words str)
             end
        else unwords (words str)
    end.
Proof.
  induction str as [|c rest [IHt IHf]]; [done|].
  destruct (isBreakingSpace c) eqn:Hc.
  - rewrite words_cons_space by done. simpl. rewrite Hc. split; [done|].
    simpl. rewrite replaceRuns_all_spaces, IHt.
    destruct (forallb isBreakingSpace rest) eqn:Hall.
    + apply words_nil_spaces in Hall. by rewrite Hall.
    + destruct (words rest) eqn:Hw; [|done].
      apply words_nil_spaces in Hw. congruence.
  - assert (Hgo : forall b, dropTrailing (replaceRuns b (c :: rest))
                            = unwords (words (c :: rest))).
    { intros b. simpl. rewrite Hc. simpl. rewrite Hc. simpl.
      rewrite IHf, words_cons_char by done.
      destruct rest as [|d rest']; [done|]. simpl.
      destruct (isBreakingSpace d) eqn:Hd.
      - by destruct (words (d :: rest')).
      - destruct (words (d :: rest')) as [|w r] eqn:Hw; [|by destruct r].
        apply words_nil_spaces in Hw. simpl in Hw. by rewrite Hd in Hw. }
    split; [apply Hgo|]. rewrite Hgo. done.
Qed.

Lemma collapseBreakingSpaces_words (str : jsstring) :
  collapseBreakingSpaces str = unwords (words str).
Proof.
  rewrite collapseBreakingSpaces_unfold. apply dropTrailing_replaceRuns.
Qed.

(** [words] is determined by three equations: the empty string has no
    word, a word is its own only word, and a breaking space separates
    the words before it from the words after it. *)
Lemma words_from_word (w cur : jsstring) :
  Forall (fun c => isBreakingSpace c = false) w ->
  cur ++ w <> [] -> words_from cur w = [cur ++ w].
Proof.
  revert cur. induction w as [|c rest IH]; intros cur Hw Hne; simpl.
  - rewrite app_nil_r in *. by destruct cur.
  - inversion_clear Hw as [|? ? Hc Hrest]. rewrite Hc.
    rewrite IH; [by rewrite <- app_assoc|done|].
    rewrite <- app_assoc. simpl. by destruct cur.
Qed.

Lemma words_word (w : jsstring) : wordlike w -> words w = [w].
Proof. intros [Hne Hw]. by apply (words_from_word w []). Qed.

Lemma words_from_split (u v cur : jsstring) (c : N) :
  isBreakingSpace c = true ->
  words_from cur (u ++ c :: v) = words_from cur u ++ words v.
Proof.
  intros Hc. unfold words. revert cur.
  induction u as [|d u IH]; intros cur; simpl.
  - rewrite Hc. by destruct cur.
  - destruct (isBreakingSpace d); [|apply IH].
    destruct cur; simpl; by rewrite IH.
Qed.

Lemma words_split (u v : jsstring) (c : N) :
  isBreakingSpace c = true -> words (u ++ c :: v) = words u ++ words v.
Proof. apply words_from_split. Qed.

Lemma words_from_wordlike (str cur : jsstring) :
  Forall (fun c => isBreakingSpace c = false) cur ->
  Forall wordlike (words_from cur str).
Proof.
  revert cur. induction str as [|c rest IH]; intros cur Hcur; simpl.
  - destruct cur; [constructor|].
    constructor; [by split|constructor].
  - destruct (isBreakingSpace c) eqn:Hc.
    + destruct cur; [by apply IH|].
      constructor; [by split|by apply IH].
    + apply IH. apply Forall_app. split; [done|].
      constructor; [done|constructor].
Qed.

Lemma words_wordlike (str : jsstring) : Forall wordlike (words str).
Proof. by apply words_from_wordlike. Qed.

(** The words keep every character that is not a breaking space, in
    order. *)
Lemma words_from_concat (str cur : jsstring) :
  concat (words_from cur str)
    = cur ++ List.filter (fun c => negb (isBreakingSpace c)) str.
Proof.
  revert cur. induction str as [|c rest IH]; intros cur; simpl.
  - destruct cur; simpl; by rewrite ?app_nil_r.
  - destruct (isBreakingSpace c); simpl.
    + destruct cur; simpl; by rewrite IH.
    + by rewrite IH, <- app_assoc.
Qed.

Lemma unwords_head (ws : list jsstring) (c : N) :
  Forall wordlike ws -> head (unwords ws) = Some c -> isBreakingSpace c = false.
Proof.
  intros Hws. destruct Hws as [|w rest [Hne Hw] Hrest]; [done|].
  destruct w as [|d w]; [done|].
  inversion_clear Hw as [|? ? Hd _].
  destruct rest; simpl; by intros [= <-].
Qed.

Lemma unwords_last (ws : list jsstring) (c : N) :
  Forall wordlike ws -> last (unwords ws) = Some c -> isBreakingSpace c = false.
Proof.
  induction 1 as [|w rest [Hne Hw] Hrest IH]; [done|].
  destruct rest as [|w2 rest].
  - simpl. intros Hlast. apply last_Some in Hlast as [front ->].
    apply Forall_app in Hw as [_ Hc]. by inversion_clear Hc.
  - change (unwords (w :: w2 :: rest))
      with (w ++ SPACE :: unwords (w2 :: rest)).
    rewrite last_app_cons, last_cons.
    destruct (last (unwords (w2 :: rest))) as [e|] eqn:Hlast; [done|].
    apply last_None in Hlast. inversion_clear Hrest as [|? ? [Hne2 _] _].
    destruct w2; [done|]. by destruct rest.
Qed.

(** C6: the normalizer returns the words of its input (the maximal runs
    of characters other than tab, carriage return, newline and space)
    joined by single spaces: every run of breaking spaces between two
    words has become one space, and there is no breaking space at either
    end.  Hence two inputs with the same words, i.e. differing only in
    their runs of breaking spaces, have the same normal form and the
    same hash code. *)
Theorem collapseBreakingSpaces_normalizes (str : jsstring) :
  collapseBreakingSpaces str = unwords (words str) /\
  Forall wordlike (words str) /\
  concat (words str) = List.filter (fun c => negb (isBreakingSpace c)) str /\
  (forall c, head (collapseBreakingSpaces str) = Some c ->
             isBreakingSpace c = false) /\
  (forall c, last (collapseBreakingSpaces str) = Some c ->
             isBreakingSpace c = false) /\
  (forall str', words str' = words str ->
     collapseBreakingSpaces str' = collapseBreakingSpaces str /\
     hashCode (collapseBreakingSpaces str')
       = hashCode (collapseBreakingSpaces str)).
Proof.
  pose proof (words_wordlike str) as Hws.
  rewrite collapseBreakingSpaces_words.
  repeat split; try done.
  - apply (words_from_concat str []).
  - intros c. by apply unwords_head.
  - intros c. by apply unwords_last.
  - rewrite collapseBreakingSpaces_words. congruence.
  - rewrite collapseBreakingSpaces_words. congruence.
Qed.

End StringFacts.

(** ** Facts about the component *)

Section ComponentFacts.
Import Component.
Context {Dom : Type} `{!DomAdapter Dom}.
Implicit Types (w : World Dom) (widget : Widget Dom).
Implicit Types (surfaceId : jsstring) (content : jsval).

Lemma hashCode_not_sentinel (s : jsstring) :
  string.hashCode s <> Cache.NOT_INITIALIZED /\
  string.hashCode s <> Cache.NOT_CACHEABLE.
Proof.
  pose proof (hashCode_range s). unfold Cache.NOT_INITIALIZED, Cache.NOT_CACHEABLE.
  lia.
Qed.

Lemma world_eta w : mkWorld (this w) (dom w) = w.
Proof. by destruct w. Qed.

Lemma set_surfaces_id (c : instance) : set_surfaces_ (surfaces_ c) c = c.
Proof. by destruct c. Qed.

Lemma set_cacheState_id (s : Surface.t) (v : Z) :
  Surface.cacheState s = Some v -> Surface.set_cacheState v s = s.
Proof. destruct s; simpl; by intros ->. Qed.

Lemma set_element_id (s : Surface.t) (el : ref) :
  Surface.element s = Some el -> Surface.set_element el s = s.
Proof. destruct s; simpl; by intros ->. Qed.

Lemma alter_lookup_id (m : gmap jsstring Surface.t) surfaceId (s : Surface.t)
    (f : Surface.t -> Surface.t) :
  m !! surfaceId = Some s -> f s = s -> alter f surfaceId m = m.
Proof.
  intros Hm Hf. apply map_eq. intros k.
  destruct (decide (k = surfaceId)) as [->|Hne].
  - rewrite lookup_alter_eq, Hm. simpl. by rewrite Hf.
  - by rewrite lookup_alter_ne.
Qed.

(** A string whose fingerprint is the stored one is not rendered again. *)
Lemma renderSurfaceContent_cached widget w surfaceId (surface : Surface.t) (s : jsstring) :
  surfaces_ (this w) !! surfaceId = Some surface ->
  Surface.cacheState surface = Some (string.hashCode s) ->
  renderSurfaceContent widget surfaceId (JSString s) w = Returned tt w [].
Proof.
  intros Hreg Hcache.
  destruct (hashCode_not_sentinel s) as [Hni Hnc].
  unfold renderSurfaceContent, getSurface, read, updateSurface, updateThis, update.
  simpl. unfold mbind, M_bind, mret, M_ret. rewrite Hreg.
  rewrite !bool_decide_eq_false_2 by done.
  rewrite bool_decide_eq_false_2 by (rewrite Hcache; intros H; by apply H).
  simpl. f_equal.
  rewrite (alter_lookup_id _ _ surface) by (done || by apply set_cacheState_id).
  rewrite set_surfaces_id. apply world_eta.
Qed.

Lemma alter_lookup_insert (m : gmap jsstring Surface.t) surfaceId (s : Surface.t)
    (f : Surface.t -> Surface.t) :
  m !! surfaceId = Some s -> alter f surfaceId m = <[surfaceId := f s]> m.
Proof.
  intros Hm. apply map_eq. intros k.
  destruct (decide (k = surfaceId)) as [->|Hne].
  - by rewrite lookup_alter_eq, lookup_insert_eq, Hm.
  - by rewrite lookup_alter_ne, lookup_insert_ne.
Qed.

Lemma withSurface_id w surfaceId (s : Surface.t) :
  surfaces_ (this w) !! surfaceId = Some s ->
  withSurface w surfaceId s (dom w) = w.
Proof.
  intros Hreg. unfold withSurface.
  by rewrite insert_id, set_surfaces_id, world_eta.
Qed.

(** The element of a registered surface is resolved once: looked up in
    the document, or else created, and stored in the surface. *)
Lemma getSurfaceElement_registered widget w surfaceId (s : Surface.t) :
  surfaces_ (this w) !! surfaceId = Some s ->
  exists el d pre,
    getSurfaceElement widget surfaceId w
      = Returned (Some el) (withSurface w surfaceId (Surface.set_element el s) d) pre /\
    (pre = [] /\ d = dom w \/ pre = [CreateElement el]) /\
    (forall el', Surface.element s = Some el' -> el' = el /\ d = dom w /\ pre = []).
Proof.
  intros Hreg.
  unfold getSurfaceElement, getSurface, makeSurfaceId_, createSurfaceElement_,
    read, updateSurface, updateDom, updateThis, update.
  unfold mbind, M_bind, mret, M_ret. simpl. rewrite Hreg.
  destruct (Surface.element s) as [el|] eqn:Hel.
  - exists el, (dom w), []. split; [|split; [by left|]].
    + by rewrite set_element_id, withSurface_id.
    + intros el' [= ->]. done.
  - destruct (document_getElementById _ (dom w)) as [el|] eqn:HbyId;
      [|destruct (element_querySelectorId _ _ (dom w)) as [el|] eqn:HbySel;
        [|destruct (document_createElement _ (dom w)) as [el d] eqn:Hnew]];
      simpl.
    + exists el, (dom w), []. split; [|split; [by left|done]].
      unfold withSurface. by rewrite (alter_lookup_insert _ _ s).
    + exists el, (dom w), []. split; [|split; [by left|done]].
      unfold withSurface. by rewrite (alter_lookup_insert _ _ s).
    + exists el, (element_setId el (id (this w) ++ js "-"%string ++ surfaceId) d), [CreateElement el].
      split; [|split; [by right|done]].
      unfold withSurface. by rewrite (alter_lookup_insert _ _ s).
Qed.

(** Stale content is rendered: the element is cleared, the content is
    appended and the fingerprint is stored. *)
Lemma renderSurfaceContent_stale widget w surfaceId (s : Surface.t) content :
  surfaces_ (this w) !! surfaceId = Some s ->
  core.isDefAndNotNull content = true ->
  stale s content ->
  exists el d pre,
    renderSurfaceContent widget surfaceId content w
      = Returned tt
          (withSurface w surfaceId
             (Surface.set_cacheState (computeSurfaceCacheState_ content)
                (Surface.set_element el s))
             (dom_append el content (dom_removeChildren el d)))
          (pre ++ [RemoveChildren el; Append el content]) /\
    (pre = [] /\ d = dom w \/ pre = [CreateElement el]) /\
    (forall el', Surface.element s = Some el' -> el' = el /\ d = dom w /\ pre = []).
Proof.
  intros Hreg Hdef Hstale.
  destruct (getSurfaceElement_registered widget w surfaceId s Hreg)
    as (el & d & pre & Hget & Hpre & Hsame).
  exists el, d, pre. split; [|done].
  unfold renderSurfaceContent. rewrite Hdef.
  assert (Hcond :
    (if bool_decide (computeSurfaceCacheState_ content = Cache.NOT_INITIALIZED)
     then mret true
     else if bool_decide (computeSurfaceCacheState_ content = Cache.NOT_CACHEABLE)
     then mret true
     else mret (bool_decide (Some (computeSurfaceCacheState_ content)
                             <> Surface.cacheState s))) = (mret true : M Dom bool)).
  { clear - Hstale. unfold stale in Hstale.
    repeat case_bool_decide; try done.
    by destruct Hstale as [?|[?|?]]. }
  unfold getSurface, read, removeChildren, append, updateSurface, updateDom,
    updateThis, update, emit.
  unfold mbind, M_bind at 1. rewrite Hreg.
  unfold mbind, M_bind at 1. rewrite Hcond. unfold mret, M_ret at 1.
  unfold M_bind. rewrite Hget. simpl.
  f_equal; [|by rewrite app_nil_r]. unfold withSurface. simpl.
  rewrite (alter_lookup_insert _ _ (Surface.set_element el s))
    by apply lookup_insert_eq.
  by rewrite insert_insert_eq.
Qed.

Lemma renderSurfaceContent_absent_content widget w surfaceId content :
  core.isDefAndNotNull content = false ->
  renderSurfaceContent widget surfaceId content w = Returned tt w [].
Proof. intros Hdef. unfold renderSurfaceContent. by rewrite Hdef. Qed.




(** After a string has been rendered into a registered surface, the
    surface stores the hash code of that string. *)
Lemma renderSurfaceContent_string widget w surfaceId (s0 : Surface.t) (str : jsstring) :
  surfaces_ (this w) !! surfaceId = Some s0 ->
  exists w1 t1 s1,
    renderSurfaceContent widget surfaceId (JSString str) w = Returned tt w1 t1 /\
    surfaces_ (this w1) !! surfaceId = Some s1 /\
    Surface.cacheState s1 = Some (string.hashCode str) /\
    Surface.renderAttrs s1 = Surface.renderAttrs s0.
Proof.
  intros Hreg.
  destruct (decide (Surface.cacheState s0 = Some (string.hashCode str))) as [Hc|Hc].
  - exists w, [], s0. by rewrite (renderSurfaceContent_cached _ _ _ s0).
  - destruct (renderSurfaceContent_stale widget w surfaceId s0 (JSString str))
      as (el & d & pre & Hrun & _); [done|done|by right; right|].
    eexists _, _, _. split; [exact Hrun|]. simpl.
    by rewrite lookup_insert_eq.
Qed.

(** Content that is not a string is rendered on every call. *)
Lemma renderSurfaceContent_not_cacheable widget w surfaceId (s0 : Surface.t) (o : nat) :
  surfaces_ (this w) !! surfaceId = Some s0 ->
  exists w1 t1 el,
    renderSurfaceContent widget surfaceId (JSObject o) w = Returned tt w1 t1 /\
    Append el (JSObject o) ∈ t1 /\
    Surface.cacheState <$> surfaces_ (this w1) !! surfaceId
      = Some (Some Cache.NOT_CACHEABLE).
Proof.
  intros Hreg.
  destruct (renderSurfaceContent_stale widget w surfaceId s0 (JSObject o))
    as (el & d & pre & Hrun & _); [done|done|right; by left|].
  eexists _, _, el. split; [exact Hrun|]. simpl.
  rewrite lookup_insert_eq. split; [|done].
  apply elem_of_app. right. apply elem_of_cons. right. by apply elem_of_cons; left.
Qed.


(** C2, as amended: after a string [str1] has been rendered into a
    registered surface, rendering [str2] clears the element and appends
    [str2] exactly when the hash codes of the two strings differ; when
    they are equal the call changes nothing. *)
Theorem renderSurfaceContent_rerenders_iff_hash_differs
    widget w surfaceId (s0 : Surface.t) (str1 str2 : jsstring) :
  surfaces_ (this w) !! surfaceId = Some s0 ->
  exists w1 t1,
    renderSurfaceContent widget surfaceId (JSString str1) w = Returned tt w1 t1 /\
    (string.hashCode str1 <> string.hashCode str2 ->
       exists el d pre,
         renderSurfaceContent widget surfaceId (JSString str2) w1
           = Returned tt
               (withSurface w1 surfaceId
                  (Surface.mk (Some (string.hashCode str2)) (Some el)
                     (Surface.renderAttrs s0))
                  (dom_append el (JSString str2) (dom_removeChildren el d)))
               (pre ++ [RemoveChildren el; Append el (JSString str2)]) /\
         (pre = [] /\ d = dom w1 \/ pre = [CreateElement el])) /\
    (string.hashCode str1 = string.hashCode str2 ->
       renderSurfaceContent widget surfaceId (JSString str2) w1 = Returned tt w1 []).
Proof.
  intros Hreg.
  destruct (renderSurfaceContent_string widget w surfaceId s0 str1 Hreg)
    as (w1 & t1 & s1 & Hrun & Hreg1 & Hcache & Hattrs).
  exists w1, t1. split; [done|].
  split.
  - intros Hne.
    destruct (renderSurfaceContent_stale widget w1 surfaceId s1 (JSString str2))
      as (el & d & pre & Hrun2 & Hpre & _); [done|done| |].
    { right; right. rewrite Hcache. simpl. congruence. }
    exists el, d, pre. split; [|done]. rewrite Hrun2. by rewrite <- Hattrs.
  - intros Heq. apply (renderSurfaceContent_cached _ _ _ s1); [done|].
    by rewrite Hcache, Heq.
Qed.

(** C9: with [undefined] or [null] as content the call does nothing:
    no DOM operation, and the component (hence the stored cache state of
    every surface) is the one before the call. *)
Theorem renderSurfaceContent_undefined_or_null widget w surfaceId :
  renderSurfaceContent widget surfaceId JSUndefined w = Returned tt w [] /\
  renderSurfaceContent widget surfaceId JSNull w = Returned tt w [].
Proof. split; by apply renderSurfaceContent_absent_content. Qed.


(** C4: on a component whose [inDocument] flag is true, [render] and
    [decorate] throw [Error('Component already rendered')] before doing
    anything: the world left behind is the one before the call
    (surfaces, cache states, index, document and flag included) and
    the trace is empty. *)
Theorem render_decorate_already_rendered
    widget w (opt_parentElement opt_siblingElement : ElementArg) :
  inDocument (this w) = true ->
  render widget opt_parentElement opt_siblingElement w
    = Thrown (Error (js "Component already rendered"%string)) w [] /\
  decorate widget w
    = Thrown (Error (js "Component already rendered"%string)) w [].
Proof.
  intros Hin. split.
  - unfold render, read, throw. unfold mbind, M_bind at 1. by rewrite Hin.
  - unfold decorate, read, throw. unfold mbind, M_bind at 1. by rewrite Hin.
Qed.

(** [detach] on a root element that has a parent. *)
Lemma detach_with_parent widget w (p : ref) :
  element_parentNode (element (this w)) (dom w) = Some p ->
  detach widget w
    = Returned tt
        (detached widget
           (mkWorld (set_inDocument false (this w))
              (node_removeChild p (element (this w)) (dom w))))
        [RemoveChild p (element (this w)); HookCall Detached].
Proof.
  intros Hp. unfold detach, read, runHook, emit, update, updateDom, updateThis.
  cbv [mbind M_bind update]. by rewrite Hp.
Qed.

(** [detach] on a root element that has no parent. *)
Lemma detach_without_parent widget w :
  element_parentNode (element (this w)) (dom w) = None ->
  detach widget w = Thrown TypeError w [].
Proof.
  intros Hp. unfold detach, read, throw. cbv [mbind M_bind]. by rewrite Hp.
Qed.

Lemma getSurfaceElement_unregistered widget w surfaceId :
  surfaces_ (this w) !! surfaceId = None ->
  getSurfaceElement widget surfaceId w = Returned None w [].
Proof.
  intros Hreg. unfold getSurfaceElement, getSurface, read.
  cbv [mbind M_bind mret M_ret]. by rewrite Hreg.
Qed.

(** What [removeSurface] leaves behind: the entry is deleted, the index
    and the other fields are kept. *)
Lemma removeSurface_returns widget w surfaceId :
  exists d t,
    removeSurface widget surfaceId w
      = Returned tt
          (mkWorld (set_surfaces_ (delete surfaceId (surfaces_ (this w))) (this w)) d)
          t.
Proof.
  unfold removeSurface.
  destruct (surfaces_ (this w) !! surfaceId) as [s|] eqn:Hreg.
  - destruct (getSurfaceElement_registered widget w surfaceId s Hreg)
      as (el & d & pre & Hget & _).
    unfold mbind, M_bind at 1 2. rewrite Hget.
    unfold read, updateDom, updateThis, update, emit.
    cbv [mbind M_bind mret M_ret withSurface this dom].
    destruct (element_parentNode el d) as [p|]; simpl;
      eexists _, _; rewrite delete_insert_eq; reflexivity.
  - unfold mbind, M_bind at 1 2.
    rewrite getSurfaceElement_unregistered by done.
    unfold updateThis, update. cbv [mbind M_bind mret M_ret].
    by eexists _, _.
Qed.


(** C8: [removeSurface] of a registered id deletes its entry from
    [surfaces_] and leaves [surfacesRenderAttrs_] as it was; every id
    listed under an attribute, the removed one included, is still
    listed. *)
Theorem removeSurface_keeps_index widget w surfaceId (s : Surface.t) :
  surfaces_ (this w) !! surfaceId = Some s ->
  exists w1 t1,
    removeSurface widget surfaceId w = Returned tt w1 t1 /\
    surfaces_ (this w1) = delete surfaceId (surfaces_ (this w)) /\
    surfaces_ (this w1) !! surfaceId = None /\
    surfacesRenderAttrs_ (this w1) = surfacesRenderAttrs_ (this w) /\
    (forall (attr : jsstring) (ids : gset jsstring) (other : jsstring),
       surfacesRenderAttrs_ (this w) !! attr = Some ids -> other ∈ ids ->
       exists ids', surfacesRenderAttrs_ (this w1) !! attr = Some ids' /\
                    other ∈ ids').
Proof.
  intros _.
  destruct (removeSurface_returns widget w surfaceId) as (d & t & Hrun).
  eexists _, _. split; [exact Hrun|]. simpl.
  repeat split; [apply lookup_delete_eq|].
  intros attr ids other Hids Hin. by exists ids.
Qed.

Lemma forIn_cons {K} (k : K) (rest : list K) (body : K -> M Dom unit) w :
  forIn (k :: rest) body w
    = match body k w with
      | Returned _ w1 t1 =>
          match forIn rest body w1 with
          | Returned b w2 t2 => Returned b w2 (t1 ++ t2)
          | Thrown e w2 t2 => Thrown e w2 (t1 ++ t2)
          end
      | Thrown e w1 t1 => Thrown e w1 t1
      end.
Proof. reflexivity. Qed.

(** *** Registration and the render-attribute index *)

Lemma cacheSurfaceRenderAttrs_spec w surfaceId (s : Surface.t) :
  surfaces_ (this w) !! surfaceId = Some s ->
  exists index,
    cacheSurfaceRenderAttrs_ surfaceId w
      = Returned tt (mkWorld (set_surfacesRenderAttrs_ index (this w)) (dom w)) [] /\
    forall attr,
      default ∅ (index !! attr)
        = default ∅ (surfacesRenderAttrs_ (this w) !! attr) ∪
          (if decide (attr ∈ Surface.renderAttrs s) then {[surfaceId]} else ∅).
Proof.
  intros Hreg. unfold cacheSurfaceRenderAttrs_, getSurface, read.
  unfold mbind, M_bind at 1. rewrite Hreg.
  assert (Hloop : forall (names : list jsstring) w,
    exists index,
      forIn names (fun attr =>
        updateThis (fun c =>
          set_surfacesRenderAttrs_
            (<[attr := {[surfaceId]} ∪ default ∅ (surfacesRenderAttrs_ c !! attr)]>
               (surfacesRenderAttrs_ c)) c)) w
        = Returned tt (mkWorld (set_surfacesRenderAttrs_ index (this w)) (dom w)) [] /\
      forall attr,
        default ∅ (index !! attr)
          = default ∅ (surfacesRenderAttrs_ (this w) !! attr) ∪
            (if decide (attr ∈ names) then {[surfaceId]} else ∅)).
  { clear. induction names as [|a names IH]; intros w.
    - exists (surfacesRenderAttrs_ (this w)). split.
      + simpl. unfold mret, M_ret. f_equal. destruct w as [c d]. by destruct c.
      + intros attr. rewrite decide_False by apply not_elem_of_nil. set_solver.
    - rewrite forIn_cons. unfold updateThis at 1, update. cbv beta iota.
      edestruct IH as (index & -> & Hindex). exists index. split.
      + destruct w as [c d]. by destruct c.
      + intros attr. rewrite Hindex. simpl.
        destruct (decide (attr = a)) as [->|Hne].
        * rewrite lookup_insert_eq. simpl.
          rewrite (decide_True (P := a ∈ a :: names)) by by left.
          destruct (decide (a ∈ names)); set_solver.
        * rewrite lookup_insert_ne by done.
          destruct (decide (attr ∈ names)) as [Hin|Hin].
          -- rewrite decide_True; [done|by right].
          -- rewrite decide_False; [done|]. by intros [?|?]%elem_of_cons. }
  destruct (Hloop (Surface.renderAttrs s) w) as (index & Hrun & Hindex).
  exists index. cbv beta iota. rewrite Hrun. done.
Qed.

(** Registering a new id keeps the index in agreement with the
    registry. *)
Lemma addSurface_agrees w surfaceId (opt_config : option Surface.t) :
  index_agrees (this w) ->
  surfaces_ (this w) !! surfaceId = None ->
  exists w',
    addSurface surfaceId opt_config w = Returned tt w' [] /\
    index_agrees (this w') /\
    surfaces_ (this w')
      = <[surfaceId :=
            default (Surface.mk (Some Cache.NOT_INITIALIZED) None []) opt_config]>
          (surfaces_ (this w)).
Proof.
  intros Hagree Hfresh. unfold addSurface, updateThis, update.
  unfold mbind, M_bind.
  set (s := default (Surface.mk (Some Cache.NOT_INITIALIZED) None []) opt_config).
  edestruct (cacheSurfaceRenderAttrs_spec
               (mkWorld (set_surfaces_ (<[surfaceId := s]> (surfaces_ (this w)))
                           (this w)) (dom w)) surfaceId s)
    as (index & -> & Hindex); [apply lookup_insert_eq|].
  eexists. split; [done|]. simpl. split; [|done].
  intros attr other. rewrite Hindex. simpl.
  rewrite elem_of_union, (Hagree attr other).
  split.
  - intros [(s' & Hs' & Hattr)|Hnew].
    + exists s'. split; [|done]. rewrite lookup_insert_ne; [done|congruence].
    + destruct (decide (attr ∈ Surface.renderAttrs s)) as [Hin|Hin]; [|set_solver].
      apply elem_of_singleton in Hnew as ->. exists s.
      by rewrite lookup_insert_eq.
  - intros (s' & Hs' & Hattr).
    destruct (decide (other = surfaceId)) as [->|Hne].
    + rewrite lookup_insert_eq in Hs'. injection Hs' as <-.
      right. rewrite decide_True by done. by apply elem_of_singleton.
    + rewrite lookup_insert_ne in Hs' by done. left. by exists s'.
Qed.

(** Construction: the surfaces of the static hint are registered and
    the index agrees with the registry. *)
Lemma addSurfacesFromStaticHint_agrees w
    (SURFACES_MERGED : gmap jsstring (option Surface.t)) :
  exists w',
    addSurfacesFromStaticHint_ SURFACES_MERGED w = Returned tt w' [] /\
    index_agrees (this w') /\
    forall surfaceId,
      surfaces_ (this w') !! surfaceId
        = default (Surface.mk (Some Cache.NOT_INITIALIZED) None [])
            <$> SURFACES_MERGED !! surfaceId.
Proof.
  unfold addSurfacesFromStaticHint_, addSurfaces, updateThis, update.
  unfold mbind, M_bind at 1 2. cbv beta iota.
  set (w0 := mkWorld (set_surfacesRenderAttrs_ ∅ _) _).
  assert (Hlist : forall (l : list (jsstring * option Surface.t)) w,
    NoDup l.*1 ->
    index_agrees (this w) ->
    (forall surfaceId, surfaceId ∈ l.*1 -> surfaces_ (this w) !! surfaceId = None) ->
    exists w',
      forIn l (fun '(surfaceId, config) => addSurface surfaceId config) w
        = Returned tt w' [] /\
      index_agrees (this w') /\
      forall surfaceId,
        surfaces_ (this w') !! surfaceId
          = match (list_to_map l : gmap jsstring (option Surface.t)) !! surfaceId with
            | Some config =>
                Some (default (Surface.mk (Some Cache.NOT_INITIALIZED) None []) config)
            | None => surfaces_ (this w) !! surfaceId
            end).
  { clear. induction l as [|[k config] l IH]; intros w Hnodup Hagree Hfresh.
    - exists w. split; [done|]. split; [done|]. intros ?. simpl.
      by rewrite lookup_empty.
    - apply NoDup_cons in Hnodup as [Hk Hnodup].
      destruct (addSurface_agrees w k config Hagree) as (w1 & Hrun & Hagree1 & Hs1).
      { apply Hfresh. by left. }
      destruct (IH w1 Hnodup Hagree1) as (w' & Hrest & Hagree' & Hs').
      { intros other Hother. rewrite Hs1, lookup_insert_ne; [|set_solver].
        apply Hfresh. by right. }
      exists w'. split; [by rewrite forIn_cons, Hrun, Hrest|]. split; [done|].
      intros other. rewrite Hs'. simpl.
      destruct (decide (other = k)) as [->|Hne].
      + rewrite lookup_insert_eq.
        rewrite (not_elem_of_list_to_map_1 l k) by done.
        by rewrite Hs1, lookup_insert_eq.
      + rewrite lookup_insert_ne by done.
        destruct (list_to_map l !! other); [done|].
        by rewrite Hs1, lookup_insert_ne. }
  destruct (Hlist (map_to_list SURFACES_MERGED) w0) as (w' & Hrun & Hagree & Hs).
  { apply NoDup_fst_map_to_list. }
  { intros attr other. subst w0. simpl. rewrite !lookup_empty. simpl.
    split; [set_solver|]. by intros (? & ? & ?). }
  { intros other _. subst w0. simpl. apply lookup_empty. }
  exists w'. rewrite Hrun. split; [done|]. split; [done|].
  intros other. rewrite Hs, list_to_map_to_list. subst w0. simpl.
  rewrite lookup_empty. by destruct (SURFACES_MERGED !! other).
Qed.

(** *** The attribute batch handler *)

(** One call of [renderSurfaceContent] on a registered surface touches
    that surface and the document only. *)
Lemma renderSurfaceContent_step widget w surfaceId (s : Surface.t) content :
  surfaces_ (this w) !! surfaceId = Some s ->
  exists s1 d1 t,
    renderSurfaceContent widget surfaceId content w
      = Returned tt (withSurface w surfaceId s1 d1) t /\
    Surface.renderAttrs s1 = Surface.renderAttrs s /\
    (core.isDefAndNotNull content = false -> s1 = s) /\
    (core.isDefAndNotNull content = true ->
       Surface.cacheState s1 = Some (computeSurfaceCacheState_ content) /\
       (stale s content ->
          exists el, Surface.element s1 = Some el /\ Append el content ∈ t)) /\
    (forall el c, Append el c ∈ t -> Surface.element s1 = Some el /\ c = content) /\
    (forall attr nv pv, SyncCall attr nv pv ∉ t).
Proof.
  intros Hreg.
  assert (Hrender : core.isDefAndNotNull content = true -> stale s content ->
    exists s1 d1 t,
      renderSurfaceContent widget surfaceId content w
        = Returned tt (withSurface w surfaceId s1 d1) t /\
      Surface.renderAttrs s1 = Surface.renderAttrs s /\
      Surface.cacheState s1 = Some (computeSurfaceCacheState_ content) /\
      (exists el, Surface.element s1 = Some el /\ Append el content ∈ t) /\
      (forall el c, Append el c ∈ t -> Surface.element s1 = Some el /\ c = content) /\
      (forall attr nv pv, SyncCall attr nv pv ∉ t)).
  { intros Hdef Hstale.
    destruct (renderSurfaceContent_stale widget w surfaceId s content)
      as (el & d & pre & Hrun & Hpre & _); [done..|].
    eexists _, _, _. split; [exact Hrun|]. simpl.
    split; [done|]. split; [done|].
    split; [exists el; split; [done|set_solver]|].
    destruct Hpre as [[-> _]| ->]; set_solver. }
  assert (Hnoop : renderSurfaceContent widget surfaceId content w = Returned tt w [] ->
    exists s1 d1 t,
      renderSurfaceContent widget surfaceId content w
        = Returned tt (withSurface w surfaceId s1 d1) t /\
      s1 = s /\ t = []).
  { intros Hrun. exists s, (dom w), []. by rewrite withSurface_id. }
  destruct (core.isDefAndNotNull content) eqn:Hdef.
  - destruct (decide (Surface.cacheState s
                      = Some (computeSurfaceCacheState_ content))) as [Hc|Hc].
    + destruct content as [| |str|o]; try done.
      * destruct (hashCode_not_sentinel str) as [Hni Hnc].
        destruct Hnoop as (s1 & d1 & t & Hrun & -> & ->);
          [by apply (renderSurfaceContent_cached _ _ _ s)|].
        exists s, d1, []. split; [done|]. split; [done|]. split; [done|].
        split; [intros _; split; [done|unfold stale; by intros [?|[?|?]]]|].
        split; [by intros ? ? ?%elem_of_nil|by intros ? ? ? ?%elem_of_nil].
      * destruct Hrender as (s1 & d1 & t & Hrun & Hattrs & Hcs & Hel & Hev);
          [done|right; by left|].
        exists s1, d1, t. naive_solver.
    + destruct Hrender as (s1 & d1 & t & Hrun & Hattrs & Hcs & Hel & Hev);
        [done|by right; right|].
      exists s1, d1, t. naive_solver.
  - destruct Hnoop as (s1 & d1 & t & Hrun & -> & ->);
      [by apply renderSurfaceContent_absent_content|].
    exists s, d1, []. split; [done|]. split; [done|]. split; [done|].
    split; [done|].
    split; [by intros ? ? ?%elem_of_nil|by intros ? ? ? ?%elem_of_nil].
Qed.

Lemma renderSurfacesContent_cons widget surfaceId (rest : list jsstring) w :
  renderSurfacesContent_ widget (surfaceId :: rest) w
    = match renderSurfaceContent widget surfaceId
              (getSurfaceContent widget surfaceId (attrs (this w))) w with
      | Returned _ w1 t1 =>
          match renderSurfacesContent_ widget rest w1 with
          | Returned b w2 t2 => Returned b w2 (t1 ++ t2)
          | Thrown e w2 t2 => Thrown e w2 (t1 ++ t2)
          end
      | Thrown e w1 t1 => Thrown e w1 t1
      end.
Proof.
  unfold renderSurfacesContent_. rewrite forIn_cons.
  unfold getSurfaceContent_, read. unfold mbind, M_bind at 1. cbv beta iota.
  by destruct (renderSurfaceContent widget surfaceId _ w).
Qed.

(** Rendering a list of distinct registered surfaces: each of them is
    rendered with its content, nothing else is touched. *)
Lemma renderSurfacesContent_spec widget (surfaces : list jsstring) w :
  NoDup surfaces ->
  (forall surfaceId, surfaceId ∈ surfaces ->
                     is_Some (surfaces_ (this w) !! surfaceId)) ->
  exists w1 t1,
    renderSurfacesContent_ widget surfaces w = Returned tt w1 t1 /\
    attrs (this w1) = attrs (this w) /\
    inDocument (this w1) = inDocument (this w) /\
    surfacesRenderAttrs_ (this w1) = surfacesRenderAttrs_ (this w) /\
    (forall surfaceId, surfaceId ∉ surfaces ->
       surfaces_ (this w1) !! surfaceId = surfaces_ (this w) !! surfaceId) /\
    (forall surfaceId s, surfaceId ∈ surfaces ->
       surfaces_ (this w) !! surfaceId = Some s ->
       exists s1,
         surfaces_ (this w1) !! surfaceId = Some s1 /\
         Surface.renderAttrs s1 = Surface.renderAttrs s /\
         let content := getSurfaceContent widget surfaceId (attrs (this w)) in
         (core.isDefAndNotNull content = false -> s1 = s) /\
         (core.isDefAndNotNull content = true ->
            Surface.cacheState s1 = Some (computeSurfaceCacheState_ content) /\
            (stale s content ->
               exists el, Surface.element s1 = Some el /\ Append el content ∈ t1))) /\
    (forall el c, Append el c ∈ t1 ->
       exists surfaceId s1,
         surfaceId ∈ surfaces /\
         surfaces_ (this w1) !! surfaceId = Some s1 /\
         Surface.element s1 = Some el /\
         c = getSurfaceContent widget surfaceId (attrs (this w))) /\
    (forall attr nv pv, SyncCall attr nv pv ∉ t1).
Proof.
  intros Hnodup. revert w.
  induction Hnodup as [|surfaceId rest Hfresh Hnodup IH]; intros w Hreg.
  - exists w, []. split; [done|]. repeat split; try done.
    + by intros ? ? ?%elem_of_nil.
    + by intros ? ? ?%elem_of_nil.
    + by intros ? ? ? ?%elem_of_nil.
  - destruct (Hreg surfaceId) as [s Hs]; [by left|].
    set (content := getSurfaceContent widget surfaceId (attrs (this w))).
    destruct (renderSurfaceContent_step widget w surfaceId s content Hs)
      as (s1 & d1 & t & Hrun & Hattrs & Hnull & Hdef & Happend & Hsync).
    destruct (IH (withSurface w surfaceId s1 d1))
      as (w1 & t1 & Hrest & Ha & Hi & Hx & Hframe & Hin & Hev & Hsync1).
    { intros other Hother. simpl. rewrite lookup_insert_ne; [|set_solver].
      apply Hreg. by right. }
    simpl in Ha, Hi, Hx.
    exists w1, (t ++ t1). split.
    { rewrite renderSurfacesContent_cons. fold content.
      by rewrite Hrun, Hrest. }
    split; [done|]. split; [done|]. split; [done|].
    assert (Hhere : surfaces_ (this w1) !! surfaceId = Some s1).
    { rewrite Hframe by done. simpl. apply lookup_insert_eq. }
    split; [|split; [|split]].
    + intros other Hother. rewrite Hframe by set_solver.
      simpl. apply lookup_insert_ne. set_solver.
    + intros other s' Hother Hs'.
      destruct (decide (other = surfaceId)) as [->|Hne].
      * assert (s' = s) as -> by congruence.
        exists s1. split; [done|]. split; [done|].
        fold content. simpl. split; [done|].
        intros Hd. destruct (Hdef Hd) as [Hcs Hst]. split; [done|].
        intros Hstale. destruct (Hst Hstale) as (el & Hel & Hap).
        exists el. split; [done|]. apply elem_of_app. by left.
      * destruct (Hin other s') as (s1' & Hs1' & Hattrs' & Hpost).
        { set_solver. }
        { simpl. by rewrite lookup_insert_ne. }
        exists s1'. split; [done|]. split; [done|].
        simpl in Hpost |- *. destruct Hpost as [Hnull' Hdef'].
        split; [done|]. intros Hd. destruct (Hdef' Hd) as [Hcs Hst].
        split; [done|]. intros Hstale. destruct (Hst Hstale) as (el & Hel & Hap).
        exists el. split; [done|]. apply elem_of_app. by right.
    + intros el c [Hc|Hc]%elem_of_app.
      * destruct (Happend el c Hc) as [Hel ->].
        exists surfaceId, s1. split; [by left|done].
      * destruct (Hev el c Hc) as (other & s1' & Hother & Hs1' & Hel & ->).
        exists other, s1'. split; [by right|done].
    + intros attr nv pv [Hc|Hc]%elem_of_app; [by eapply Hsync|by eapply Hsync1].
Qed.






End ComponentFacts.

(** ** The sample widget at work *)

Section SampleFacts.
Import Component.

Example sample_created_surfaces :
  surfaces_ (this Sample.created)
    = {[ Sample.a := Surface.mk None None [Sample.foo];
         Sample.b := Surface.mk None None [Sample.bar] ]}.
Proof. vm_compute. reflexivity. Qed.

Example sample_created_index :
  surfacesRenderAttrs_ (this Sample.created)
    = {[ Sample.foo := {[Sample.a]}; Sample.bar := {[Sample.b]} ]}.
Proof. vm_compute. reflexivity. Qed.

Example sample_render :
  exists t, render Sample.widget NoElement NoElement Sample.created
            = Returned tt Sample.rendered t.
Proof. eexists. vm_compute. reflexivity. Qed.

Example sample_rendered_flag : inDocument (this Sample.rendered) = true.
Proof. vm_compute. reflexivity. Qed.




(** Changing only [foo] renders surface [a] into its element and calls
    [syncFoo]; surface [b] is left as it was. *)
Example sample_change_foo :
  exists w',
    handleAttributesChanges_ Sample.widget (Some <$> Sample.changedFoo)
        Sample.fooChanged
      = Returned tt w'
          [RemoveChildren 3%nat; Append 3%nat (JSString (js "new"%string));
           SyncCall Sample.foo (JSString (js "new"%string)) (JSString Sample.Aa)] /\
    surfaces_ (this w') !! Sample.b
      = surfaces_ (this Sample.fooChanged) !! Sample.b.
Proof. eexists. split; vm_compute; reflexivity. Qed.

(** Registering [a] again with other [renderAttrs] leaves the old index
    entry behind: the index no longer agrees with the registry. *)
Example reregistration_leaves_stale_entry :
  addSurface Sample.a (Some (Surface.mk None None [Sample.bar])) Sample.rendered
    = Returned tt Sample.reregistered [] /\
  ¬ index_agrees (this Sample.reregistered).
Proof.
  split; [vm_compute; reflexivity|].
  assert (Hidx : surfacesRenderAttrs_ (this Sample.reregistered) !! Sample.foo
                 = Some {[Sample.a]}) by (vm_compute; reflexivity).
  assert (Hreg : surfaces_ (this Sample.reregistered) !! Sample.a
                 = Some (Surface.mk None None [Sample.bar]))
    by (vm_compute; reflexivity).
  intros Hagree. destruct (Hagree Sample.foo Sample.a) as [Hstale _].
  destruct Hstale as (s & Hs & Hattr).
  { rewrite Hidx. by apply elem_of_singleton. }
  rewrite Hreg in Hs. injection Hs as <-.
  by apply list_elem_of_singleton in Hattr.
Qed.


(** C2 fails as stated: "Aa" and "BB" differ but have the same hash
    code, so rendering "BB" after "Aa" into a registered surface is
    suppressed: no DOM operation, nothing changed. *)
Lemma hash_collision_suppresses_rerender :
  Sample.Aa <> Sample.BB /\
  is_Some (surfaces_ (this Sample.created) !! Sample.a) /\
  exists w1,
    renderSurfaceContent Sample.widget Sample.a (JSString Sample.Aa) Sample.created
      = Returned tt w1
          [CreateElement 2%nat; RemoveChildren 2%nat;
           Append 2%nat (JSString Sample.Aa)] /\
    renderSurfaceContent Sample.widget Sample.a (JSString Sample.BB) w1
      = Returned tt w1 [].
Proof.
  split; [done|]. split; [by vm_compute; eexists|].
  eexists. split; vm_compute; reflexivity.
Qed.

(** C5: a second [detach] in a row finds the root element without a
    parent and throws a [TypeError] instead of completing. *)
Theorem detach_twice_throws :
  exists w1,
    detach Sample.widget Sample.rendered
      = Returned tt w1 [RemoveChild 0%nat 1%nat; HookCall Detached] /\
    inDocument (this w1) = false /\
    element_parentNode (element (this w1)) (dom w1) = None /\
    detach Sample.widget w1 = Thrown TypeError w1 [].
Proof.
  eexists. split; [vm_compute; reflexivity|].
  split; [done|]. split; [done|]. vm_compute. reflexivity.
Qed.

End SampleFacts.

(** ** The theorems at work on the sample widget *)

Section Witnesses.
Import Component.


Lemma renderSurfaceContent_rerenders_iff_hash_differs_witness :
  surfaces_ (this Sample.created) !! Sample.a
    = Some (Surface.mk None None [Sample.foo]) /\
  string.hashCode Sample.Aa <> string.hashCode Sample.foo /\
  exists w1 t1 w2 t2,
    renderSurfaceContent Sample.widget Sample.a (JSString Sample.Aa) Sample.created
      = Returned tt w1 t1 /\
    renderSurfaceContent Sample.widget Sample.a (JSString Sample.foo) w1
      = Returned tt w2 t2 /\
    exists el, Append el (JSString Sample.foo) ∈ t2.
Proof.
  assert (H : surfaces_ (this Sample.created) !! Sample.a
              = Some (Surface.mk None None [Sample.foo]))
    by (vm_compute; reflexivity).
  assert (Hne : string.hashCode Sample.Aa <> string.hashCode Sample.foo)
    by (vm_compute; discriminate).
  split; [exact H|]. split; [exact Hne|].
  destruct (renderSurfaceContent_rerenders_iff_hash_differs
              Sample.widget Sample.created Sample.a _ Sample.Aa Sample.foo H)
    as (w1 & t1 & Hrun & Hdiff & _).
  destruct (Hdiff Hne) as (el & d & pre & Hrun2 & _).
  eexists w1, t1, _, _. split; [exact Hrun|]. split; [exact Hrun2|].
  exists el. apply elem_of_app. right. apply elem_of_cons. right.
  apply elem_of_cons. left. reflexivity.
Defined.


Lemma render_decorate_already_rendered_witness :
  inDocument (this Sample.rendered) = true /\
  render Sample.widget NoElement NoElement Sample.rendered
    = Thrown (Error (js "Component already rendered"%string)) Sample.rendered [] /\
  decorate Sample.widget Sample.rendered
    = Thrown (Error (js "Component already rendered"%string)) Sample.rendered [].
Proof.
  assert (Hin : inDocument (this Sample.rendered) = true)
    by (vm_compute; reflexivity).
  split; [exact Hin|].
  exact (render_decorate_already_rendered
           Sample.widget Sample.rendered NoElement NoElement Hin).
Defined.


Lemma removeSurface_keeps_index_witness :
  surfaces_ (this Sample.rendered) !! Sample.a
    = Some (Surface.mk (Some 2112) (Some 3%nat) [Sample.foo]) /\
  exists w1 t1,
    removeSurface Sample.widget Sample.a Sample.rendered = Returned tt w1 t1 /\
    surfaces_ (this w1) !! Sample.a = None /\
    exists ids, surfacesRenderAttrs_ (this w1) !! Sample.foo = Some ids /\
                Sample.a ∈ ids.
Proof.
  assert (H : surfaces_ (this Sample.rendered) !! Sample.a
              = Some (Surface.mk (Some 2112) (Some 3%nat) [Sample.foo]))
    by (vm_compute; reflexivity).
  split; [exact H|].
  destruct (removeSurface_keeps_index Sample.widget Sample.rendered Sample.a _ H)
    as (w1 & t1 & Hrun & _ & Hgone & _ & Hkept).
  exists w1, t1. split; [exact Hrun|]. split; [exact Hgone|].
  apply (Hkept Sample.foo {[Sample.a]} Sample.a).
  - vm_compute. reflexivity.
  - apply elem_of_singleton. reflexivity.
Defined.


End Witnesses.

(** ** Further facts about the string helpers *)

Section MoreStringFacts.
Import string.

Example replaceInterval_example :
  replaceInterval (js "abcde"%string) 1 4 [] = js "ae"%string.
Proof. reflexivity. Qed.

Lemma hashCode_loop_sum (val : jsstring) (hash : Z) :
  0 <= hash < 4294967296 ->
  hashCode_loop hash val
    = (hash * 31 ^ Z.of_nat (length val) + hashSum val) mod 4294967296.
Proof.
  revert hash. induction val as [|c rest IH]; intros hash Hh.
  - simpl. rewrite Z.mul_1_r, Z.add_0_r, Z.mod_small; done.
  - cbn [hashCode_loop hashSum length].
    rewrite Z.rem_mod_nonneg by lia.
    rewrite IH by (apply Z.mod_pos_bound; lia).
    rewrite Nat2Z.inj_succ, Z.pow_succ_r by lia.
    rewrite Zplus_mod, Zmult_mod, Zmod_mod, <- Zmult_mod, <- Zplus_mod.
    f_equal. ring.
Qed.

Lemma hashCode_loop_app (u v : jsstring) (hash : Z) :
  hashCode_loop hash (u ++ v) = hashCode_loop (hashCode_loop hash u) v.
Proof. revert hash. induction u as [|c u IH]; intros hash; simpl; [done|apply IH]. Qed.

(** X1: the hash code of a string lies in the range of 32-bit unsigned
    integers, so the cache state computed from string content is never
    one of the two sentinels; content that is not a string always gets
    [NOT_CACHEABLE], and no content ever gets [NOT_INITIALIZED]. *)
Theorem fingerprint_never_a_sentinel (val : jsstring) (content : jsval) :
  0 <= hashCode val < 4294967296 /\
  Component.computeSurfaceCacheState_ (JSString val) <> Component.Cache.NOT_CACHEABLE /\
  Component.computeSurfaceCacheState_ content <> Component.Cache.NOT_INITIALIZED /\
  (Component.computeSurfaceCacheState_ content = Component.Cache.NOT_CACHEABLE <->
   forall s, content <> JSString s).
Proof.
  pose proof (hashCode_range val) as Hval. split; [done|].
  unfold Component.Cache.NOT_CACHEABLE, Component.Cache.NOT_INITIALIZED.
  split; [simpl; lia|]. split.
  - destruct content as [| |s|o]; simpl; try done.
    pose proof (hashCode_range s). lia.
  - destruct content as [| |s|o]; simpl; split; try done.
    + pose proof (hashCode_range s). lia.
    + intros H. by destruct (H s).
Qed.

(** X2: the loop computes the documented sum
    [s[0]*31^(n-1) + ... + s[n-1]], reduced modulo 2^32; the empty string
    hashes to 0. *)
Theorem hashCode_is_documented_sum (val : jsstring) :
  hashCode val = hashSum val mod 4294967296 /\ hashCode [] = 0.
Proof.
  split; [|done]. unfold hashCode.
  rewrite hashCode_loop_sum by lia. by rewrite Z.mul_0_l, Z.add_0_l.
Qed.

(** X3: the hash code of a concatenation is determined by the hash codes
    of the parts and the length of the second; hence two strings with
    the same hash code still collide after the same suffix is appended
    to both. *)
Theorem hashCode_app (u v : jsstring) :
  hashCode (u ++ v)
    = (hashCode u * 31 ^ Z.of_nat (length v) + hashCode v) mod 4294967296 /\
  (forall u', hashCode u' = hashCode u -> hashCode (u' ++ v) = hashCode (u ++ v)).
Proof.
  assert (Happ : forall u, hashCode (u ++ v) = hashCode_loop (hashCode u) v).
  { intros ?. unfold hashCode. apply hashCode_loop_app. }
  split.
  - rewrite Happ, hashCode_loop_sum by apply hashCode_range.
    assert (Hv : hashCode v = hashSum v mod 4294967296).
    { unfold hashCode. rewrite hashCode_loop_sum by lia.
      by rewrite Z.mul_0_l, Z.add_0_l. }
    by rewrite Hv, Zplus_mod_idemp_r.
  - intros u' Heq. by rewrite !Happ, Heq.
Qed.

Lemma words_unwords (ws : list jsstring) :
  Forall wordlike ws -> words (unwords ws) = ws.
Proof.
  induction 1 as [|w rest Hw Hrest IH]; [done|].
  destruct rest as [|w2 rest]; [by apply words_word|].
  change (unwords (w :: w2 :: rest)) with (w ++ SPACE :: unwords (w2 :: rest)).
  rewrite words_split by done. by rewrite words_word, IH.
Qed.

Lemma unwords_nil (ws : list jsstring) :
  Forall wordlike ws -> unwords ws = [] -> ws = [].
Proof.
  intros Hws Hnil. destruct Hws as [|w rest [Hne _] _]; [done|].
  destruct w; [done|]. by destruct rest.
Qed.

Lemma replaceRuns_length (b : bool) (str : jsstring) :
  (length (replaceRuns b str) <= length str)%nat.
Proof.
  revert b. induction str as [|c rest IH]; intros b; simpl; [done|].
  destruct (isBreakingSpace c); [destruct b|]; simpl;
    [pose proof (IH true)|pose proof (IH true)|pose proof (IH false)]; lia.
Qed.

Lemma dropLeading_length (str : jsstring) :
  (length (dropLeading str) <= length str)%nat.
Proof.
  induction str as [|c rest IH]; simpl; [done|].
  destruct (isBreakingSpace c); simpl; lia.
Qed.

Lemma dropTrailing_length (str : jsstring) :
  (length (dropTrailing str) <= length str)%nat.
Proof.
  induction str as [|c rest IH]; [done|].
  cbn [dropTrailing]. destruct (forallb isBreakingSpace (c :: rest)); simpl; lia.
Qed.

(** X4: normalizing twice is normalizing once, and the strings that the
    normalizer returns unchanged are exactly the words joined by single
    spaces; in particular a string without breaking spaces is returned
    as it is. *)
Theorem collapseBreakingSpaces_idempotent (str : jsstring) :
  collapseBreakingSpaces (collapseBreakingSpaces str) = collapseBreakingSpaces str /\
  (collapseBreakingSpaces str = str <-> normalized str) /\
  (Forall (fun c => isBreakingSpace c = false) str ->
   collapseBreakingSpaces str = str).
Proof.
  pose proof (words_wordlike str) as Hws.
  assert (Hfix : forall s, normalized s -> collapseBreakingSpaces s = s).
  { intros s (ws & Hwords & ->).
    by rewrite collapseBreakingSpaces_words, words_unwords. }
  split; [|split].
  - apply Hfix. exists (words str). by rewrite collapseBreakingSpaces_words.
  - split; [|apply Hfix]. intros Heq. exists (words str).
    by rewrite <- collapseBreakingSpaces_words.
  - intros Hstr. destruct str as [|c rest]; [done|].
    apply Hfix. exists [c :: rest]. split; [|done].
    constructor; [by split|constructor].
Qed.

(** X5: the normalizer never lengthens a string, and it returns the
    empty string exactly for the strings that consist of breaking
    spaces only (the empty string among them). *)
Theorem collapseBreakingSpaces_shrinks (str : jsstring) :
  (length (collapseBreakingSpaces str) <= length str)%nat /\
  (collapseBreakingSpaces str = [] <-> forallb isBreakingSpace str = true).
Proof.
  split.
  - unfold collapseBreakingSpaces.
    pose proof (dropTrailing_length (dropLeading (replaceRuns false str))).
    pose proof (dropLeading_length (replaceRuns false str)).
    pose proof (replaceRuns_length false str). lia.
  - rewrite collapseBreakingSpaces_words, <- words_nil_spaces. split.
    + apply unwords_nil, words_wordlike.
    + by intros ->.
Qed.

Lemma clampIndex_le (str : jsstring) (index : Z) :
  (clampIndex str index <= length str)%nat.
Proof. unfold clampIndex. lia. Qed.

Lemma clampIndex_in_range (str : jsstring) (index : Z) :
  0 <= index <= Z.of_nat (length str) -> clampIndex str index = Z.to_nat index.
Proof. unfold clampIndex. lia. Qed.

Lemma substring_prefix (str : jsstring) (index : Z) :
  substring str 0 (Some index) = take (clampIndex str index) str.
Proof.
  unfold substring. replace (clampIndex str 0) with 0%nat by (unfold clampIndex; lia).
  by rewrite Nat.max_0_l, Nat.min_0_l, Nat.sub_0_r.
Qed.

Lemma substring_suffix (str : jsstring) (index : Z) :
  substring str index None = drop (clampIndex str index) str.
Proof.
  unfold substring. pose proof (clampIndex_le str index).
  rewrite Nat.max_r, Nat.min_l by done.
  apply take_ge. rewrite length_drop. lia.
Qed.

Lemma replaceInterval_take_drop (str value : jsstring) (start end_ : Z) :
  replaceInterval str start end_ value
    = take (clampIndex str start) str ++ value ++ drop (clampIndex str end_) str.
Proof. unfold replaceInterval. by rewrite substring_prefix, substring_suffix. Qed.

(** X6: [replaceInterval] keeps the characters before [start] and from
    [end] on, with both positions clamped to the string: a start at or
    below 0 keeps nothing in front, an end at or beyond the length keeps
    nothing behind, and the length of the result follows. *)
Theorem replaceInterval_clamps (str value : jsstring) (start end_ : Z) :
  replaceInterval str start end_ value
    = take (clampIndex str start) str ++ value ++ drop (clampIndex str end_) str /\
  length (replaceInterval str start end_ value)
    = (clampIndex str start + length value
       + (length str - clampIndex str end_))%nat /\
  (start <= 0 -> replaceInterval str start end_ value
                 = value ++ drop (clampIndex str end_) str) /\
  (Z.of_nat (length str) <= end_ ->
   replaceInterval str start end_ value = take (clampIndex str start) str ++ value).
Proof.
  rewrite replaceInterval_take_drop.
  pose proof (clampIndex_le str start). split; [done|]. split; [|split].
  - rewrite !length_app, length_take, length_drop. lia.
  - intros Hstart. by replace (clampIndex str start) with 0%nat
      by (unfold clampIndex; lia).
  - intros Hend. replace (clampIndex str end_) with (length str)
      by (unfold clampIndex; lia).
    by rewrite drop_all, app_nil_r.
Qed.

(** X7: replacing an interval by the substring it holds gives the string
    back, and so does inserting a value at a position of the string and
    then deleting the interval it occupies. *)
Theorem replaceInterval_round_trip (str value : jsstring) (start end_ : Z) :
  (start <= end_ ->
     replaceInterval str start end_ (substring str start (Some end_)) = str) /\
  (0 <= start <= Z.of_nat (length str) ->
     replaceInterval (replaceInterval str start start value)
       start (start + Z.of_nat (length value)) [] = str).
Proof.
  split.
  - intros Hle. rewrite replaceInterval_take_drop. unfold substring.
    assert (clampIndex str start <= clampIndex str end_)%nat as Hc
      by (unfold clampIndex; lia).
    rewrite Nat.max_r, Nat.min_l by done.
    replace (drop (clampIndex str end_) str)
      with (drop (clampIndex str end_ - clampIndex str start)
              (drop (clampIndex str start) str))
      by (rewrite drop_drop; f_equal; lia).
    by rewrite !take_drop.
  - intros Hin. rewrite (replaceInterval_take_drop str).
    rewrite replaceInterval_take_drop.
    rewrite (clampIndex_in_range str start) by done.
    set (inserted := take (Z.to_nat start) str ++ value ++ drop (Z.to_nat start) str).
    assert (Hlen : length inserted = (length str + length value)%nat).
    { unfold inserted. rewrite !length_app, length_take, length_drop. lia. }
    rewrite !clampIndex_in_range by lia. simpl.
    assert (Htake : length (take (Z.to_nat start) str) = Z.to_nat start)
      by (rewrite length_take; lia).
    unfold inserted.
    rewrite take_app_length' by done.
    replace (Z.to_nat (start + Z.of_nat (length value)))
      with (length (take (Z.to_nat start) str) + length value)%nat by lia.
    rewrite drop_app_add', drop_app_length by done.
    apply take_drop.
Qed.

End MoreStringFacts.

(** ** Further facts about the component *)

Section MoreComponentFacts.
Import Component.
Context {Dom : Type} `{!DomAdapter Dom}.
Implicit Types (w : World Dom) (widget : Widget Dom).
Implicit Types (surfaceId : jsstring) (content : jsval).

(** *** Registration *)

Lemma addSurface_spec w surfaceId (opt_config : option Surface.t) :
  exists index,
    addSurface surfaceId opt_config w
      = Returned tt
          (mkWorld
             (set_surfacesRenderAttrs_ index
                (set_surfaces_
                   (<[surfaceId :=
                        default (Surface.mk (Some Cache.NOT_INITIALIZED) None [])
                          opt_config]> (surfaces_ (this w)))
                   (this w)))
             (dom w)) [] /\
    forall attr,
      default ∅ (index !! attr)
        = default ∅ (surfacesRenderAttrs_ (this w) !! attr) ∪
          (if decide (attr ∈ Surface.renderAttrs
                        (default (Surface.mk (Some Cache.NOT_INITIALIZED) None [])
                           opt_config))
           then {[surfaceId]} else ∅).
Proof.
  unfold addSurface, updateThis, update. unfold mbind, M_bind.
  set (s := default (Surface.mk (Some Cache.NOT_INITIALIZED) None []) opt_config).
  edestruct (cacheSurfaceRenderAttrs_spec
               (mkWorld (set_surfaces_ (<[surfaceId := s]> (surfaces_ (this w)))
                           (this w)) (dom w)) surfaceId s)
    as (index & -> & Hindex); [apply lookup_insert_eq|].
  exists index. split; [done|]. exact Hindex.
Qed.

(** X8: [addSurface] stores the given configuration under the id, or a
    fresh one with cache state [NOT_INITIALIZED] when none is given,
    replacing what the id held; [getSurface] then returns it.  The other
    surfaces, the document and the attributes are untouched, and the
    index only grows: it keeps every entry it had and lists the id
    under each of the [renderAttrs] of the configuration. *)
Theorem addSurface_registers w surfaceId (opt_config : option Surface.t) :
  exists w',
    addSurface surfaceId opt_config w = Returned tt w' [] /\
    getSurface surfaceId w'
      = Returned
          (Some (default (Surface.mk (Some Cache.NOT_INITIALIZED) None [])
                   opt_config)) w' [] /\
    (forall other, other <> surfaceId ->
       surfaces_ (this w') !! other = surfaces_ (this w) !! other) /\
    (forall attr other,
       other ∈ default ∅ (surfacesRenderAttrs_ (this w) !! attr) ->
       other ∈ default ∅ (surfacesRenderAttrs_ (this w') !! attr)) /\
    (forall attr,
       attr ∈ Surface.renderAttrs
                (default (Surface.mk (Some Cache.NOT_INITIALIZED) None [])
                   opt_config) ->
       surfaceId ∈ default ∅ (surfacesRenderAttrs_ (this w') !! attr)) /\
    dom w' = dom w /\
    attrs (this w') = attrs (this w) /\
    inDocument (this w') = inDocument (this w).
Proof.
  destruct (addSurface_spec w surfaceId opt_config) as (index & Hrun & Hindex).
  eexists. split; [exact Hrun|]. simpl.
  split; [|split; [|split; [|split; [|done]]]].
  - unfold getSurface, read. simpl. by rewrite lookup_insert_eq.
  - intros other Hne. by rewrite lookup_insert_ne.
  - intros attr other Hin. rewrite Hindex. apply elem_of_union. by left.
  - intros attr Hin. rewrite Hindex, decide_True by done.
    apply elem_of_union. right. by apply elem_of_singleton.
Qed.

Lemma addSurfaces_frame (l : list (jsstring * option Surface.t)) w w' t :
  forIn l (fun '(surfaceId, config) => addSurface surfaceId config) w
    = Returned tt w' t ->
  dom w' = dom w /\
  attrs (this w') = attrs (this w) /\
  inDocument (this w') = inDocument (this w) /\
  id (this w') = id (this w) /\
  element (this w') = element (this w).
Proof.
  revert w t. induction l as [|[k config] l IH]; intros w t.
  - by intros [= <- _].
  - rewrite forIn_cons.
    destruct (addSurface_spec w k config) as (index & -> & _).
    destruct (forIn l _ _) as [[] w2 t2|] eqn:Hrest; [|done].
    intros [= <- _]. by destruct (IH _ _ Hrest) as (-> & -> & -> & -> & ->).
Qed.

(** X9: construction from the static hint discards whatever registry and
    index the component had, registers exactly the surfaces of the hint
    (an entry without configuration gets the fresh one) and leaves the
    index in agreement with the registry; the document, the attributes
    and the [inDocument] flag are not touched. *)
Theorem construction_registers_static_surfaces w
    (SURFACES_MERGED : gmap jsstring (option Surface.t)) :
  exists w',
    addSurfacesFromStaticHint_ SURFACES_MERGED w = Returned tt w' [] /\
    (forall surfaceId,
       surfaces_ (this w') !! surfaceId
         = default (Surface.mk (Some Cache.NOT_INITIALIZED) None [])
             <$> SURFACES_MERGED !! surfaceId) /\
    index_agrees (this w') /\
    dom w' = dom w /\
    attrs (this w') = attrs (this w) /\
    inDocument (this w') = inDocument (this w).
Proof.
  destruct (addSurfacesFromStaticHint_agrees w SURFACES_MERGED)
    as (w' & Hrun & Hagree & Hsurfaces).
  exists w'. split; [exact Hrun|]. split; [done|]. split; [done|].
  revert Hrun. unfold addSurfacesFromStaticHint_, addSurfaces, updateThis, update.
  unfold mbind, M_bind at 1 2. cbv beta iota.
  destruct (forIn _ _ _) as [[] w2 t2|] eqn:Hloop; [|done].
  intros [= <- _].
  by destruct (addSurfaces_frame _ _ _ _ Hloop) as (-> & -> & -> & _).
Qed.

(** *** The cache *)

Lemma clearSurfacesCache_loop (keys : list jsstring) w :
  NoDup keys ->
  (forall k, k ∈ keys -> is_Some (surfaces_ (this w) !! k)) ->
  exists m,
    forIn keys (fun surfaceId =>
      surface ← getSurface surfaceId;
      match surface with
      | None => throw TypeError
      | Some _ =>
          updateSurface surfaceId (Surface.set_cacheState Cache.NOT_INITIALIZED)
      end) w
      = Returned tt (mkWorld (set_surfaces_ m (this w)) (dom w)) [] /\
    forall k,
      m !! k = if decide (k ∈ keys)
               then Surface.set_cacheState Cache.NOT_INITIALIZED
                      <$> surfaces_ (this w) !! k
               else surfaces_ (this w) !! k.
Proof.
  intros Hnodup. revert w.
  induction Hnodup as [|k rest Hfresh Hnodup IH]; intros w Hreg.
  - exists (surfaces_ (this w)). split.
    + simpl. unfold mret, M_ret. by rewrite set_surfaces_id, world_eta.
    + intros k. by rewrite decide_False by apply not_elem_of_nil.
  - destruct (Hreg k) as [s Hs]; [by left|].
    rewrite forIn_cons. unfold getSurface at 1, read, updateSurface at 1.
    unfold updateThis at 1, update. unfold mbind at 1, M_bind at 1.
    rewrite Hs. cbv beta iota.
    set (w1 := mkWorld _ (dom w)).
    destruct (IH w1) as (m & -> & Hm).
    { intros k' Hk'. subst w1. simpl.
      destruct (Hreg k') as [s' Hs']; [by right|].
      destruct (decide (k' = k)) as [->|Hne].
      - rewrite lookup_alter_eq, Hs. by eexists.
      - rewrite lookup_alter_ne, Hs' by done. by eexists. }
    exists m. split; [subst w1; by destruct w as [[] ?]|].
    intros k'. rewrite Hm. subst w1. simpl.
    destruct (decide (k' = k)) as [->|Hne].
    + rewrite decide_False by done. rewrite decide_True by by left.
      by rewrite lookup_alter_eq.
    + rewrite lookup_alter_ne by done.
      destruct (decide (k' ∈ rest)) as [Hin|Hin].
      * rewrite decide_True; [done|by right].
      * rewrite decide_False; [done|]. by intros [?|?]%elem_of_cons.
Qed.

Lemma clearSurfacesCache_spec w :
  clearSurfacesCache_ w
    = Returned tt
        (mkWorld
           (set_surfaces_
              (Surface.set_cacheState Cache.NOT_INITIALIZED <$> surfaces_ (this w))
              (this w))
           (dom w)) [].
Proof.
  unfold clearSurfacesCache_, read. unfold mbind at 1, M_bind at 1. cbv beta iota.
  destruct (clearSurfacesCache_loop (map_to_list (surfaces_ (this w))).*1 w)
    as (m & -> & Hm).
  { apply NoDup_fst_map_to_list. }
  { intros k (p & -> & Hp)%list_elem_of_fmap. destruct p as [k s].
    apply elem_of_map_to_list in Hp. by eexists. }
  simpl. do 3 f_equal. apply map_eq. intros k. rewrite Hm, lookup_fmap.
  case_decide as Hin; [done|].
  destruct (surfaces_ (this w) !! k) as [s|] eqn:Hs; [|done].
  exfalso. apply Hin. apply list_elem_of_fmap. exists (k, s).
  split; [done|]. by apply elem_of_map_to_list.
Qed.

Lemma computeSurfaceCacheState_not_initialized content :
  computeSurfaceCacheState_ content <> Cache.NOT_INITIALIZED.
Proof.
  destruct content as [| |str|o]; try done.
  by destruct (hashCode_not_sentinel str).
Qed.

(** X10: [clearSurfacesCache_] always returns; it sets the cache state of
    every registered surface to [NOT_INITIALIZED] and changes nothing
    else: the ids, the elements and the [renderAttrs] of the surfaces,
    the index and the document are kept, and no DOM operation is made.
    Afterwards any content is stale for any surface, so that the next
    rendering of a surface writes its content. *)
Theorem clearSurfacesCache_resets_all w :
  exists w',
    clearSurfacesCache_ w = Returned tt w' [] /\
    surfaces_ (this w')
      = Surface.set_cacheState Cache.NOT_INITIALIZED <$> surfaces_ (this w) /\
    dom w' = dom w /\
    surfacesRenderAttrs_ (this w') = surfacesRenderAttrs_ (this w) /\
    attrs (this w') = attrs (this w) /\
    inDocument (this w') = inDocument (this w) /\
    (forall surfaceId s content,
       surfaces_ (this w') !! surfaceId = Some s -> stale s content).
Proof.
  eexists. split; [apply clearSurfacesCache_spec|]. simpl.
  do 5 (split; [done|]).
  intros surfaceId s content Hs. rewrite lookup_fmap in Hs.
  destruct (surfaces_ (this w) !! surfaceId) as [s0|]; [|done].
  injection Hs as <-. right; right. simpl. intros [= Heq].
  by apply (computeSurfaceCacheState_not_initialized content).
Qed.

(** *** Surface elements *)

Lemma getSurfaceElement_held widget w surfaceId (s : Surface.t) (el : ref) :
  surfaces_ (this w) !! surfaceId = Some s ->
  Surface.element s = Some el ->
  getSurfaceElement widget surfaceId w = Returned (Some el) w [].
Proof.
  intros Hreg Hel. unfold getSurfaceElement, getSurface, read.
  cbv [mbind M_bind mret M_ret]. by rewrite Hreg, Hel.
Qed.

(** X11: the element of a registered surface is resolved once.  A surface
    that holds an element returns it without looking at the document.
    Otherwise the element with id [<componentId>-<surfaceId>] is taken
    from [document.getElementById], else from the component's own
    [querySelector], and only when both find nothing a new element with
    that id is created; the element is stored in the surface, so that a
    second call returns it and does nothing else. *)
Theorem getSurfaceElement_resolves_once widget w surfaceId (s : Surface.t) :
  surfaces_ (this w) !! surfaceId = Some s ->
  exists el w1 t1,
    getSurfaceElement widget surfaceId w = Returned (Some el) w1 t1 /\
    getSurfaceElement widget surfaceId w1 = Returned (Some el) w1 [] /\
    (forall el0, Surface.element s = Some el0 -> el = el0 /\ w1 = w /\ t1 = []) /\
    (Surface.element s = None ->
       let surfaceElementId := id (this w) ++ js "-"%string ++ surfaceId in
       match document_getElementById surfaceElementId (dom w),
             element_querySelectorId (element (this w)) surfaceElementId (dom w)
       with
       | Some e, _ | None, Some e => el = e /\ dom w1 = dom w /\ t1 = []
       | None, None =>
           el = (document_createElement (SURFACE_TAG_NAME_MERGED widget) (dom w)).1 /\
           dom w1 = element_setId el surfaceElementId
                      (document_createElement (SURFACE_TAG_NAME_MERGED widget)
                         (dom w)).2 /\
           t1 = [CreateElement el]
       end).
Proof.
  intros Hreg.
  assert (Hagain : forall el d,
    getSurfaceElement widget surfaceId
        (withSurface w surfaceId (Surface.set_element el s) d)
      = Returned (Some el) (withSurface w surfaceId (Surface.set_element el s) d) []).
  { intros el d. apply (getSurfaceElement_held _ _ _ (Surface.set_element el s));
      [apply lookup_insert_eq|done]. }
  unfold getSurfaceElement at 1, getSurface, makeSurfaceId_, createSurfaceElement_,
    read, updateSurface, updateDom, updateThis, update.
  unfold mbind, M_bind, mret, M_ret. simpl. rewrite Hreg.
  destruct (Surface.element s) as [el|] eqn:Hel.
  - exists el, w, []. split; [done|]. split; [|split; [|done]].
    + by apply (getSurfaceElement_held _ _ _ s).
    + by intros ? [= <-].
  - destruct (document_getElementById _ (dom w)) as [el|] eqn:HbyId;
      [|destruct (element_querySelectorId _ _ (dom w)) as [el|] eqn:HbySel;
        [|destruct (document_createElement _ (dom w)) as [el d] eqn:Hnew]];
      simpl; rewrite (alter_lookup_insert _ _ s) by done.
    + exists el. eexists _, _. split; [done|].
      split; [apply (Hagain el (dom w))|]. split; [done|]. by intros _.
    + exists el. eexists _, _. split; [done|].
      split; [apply (Hagain el (dom w))|]. split; [done|]. by intros _.
    + exists el. eexists _, _. split; [done|].
      split; [apply (Hagain el (element_setId el _ d))|]. split; [done|].
      by intros _.
Qed.

(** X12: content that is not a string is never cached: on a registered
    surface every call with it clears the element and appends the
    content again, also when the very same value was rendered by the
    call before, and leaves the cache state [NOT_CACHEABLE]. *)
Theorem renderSurfaceContent_object_rerenders_every_time
    widget w surfaceId (s : Surface.t) (o : nat) :
  surfaces_ (this w) !! surfaceId = Some s ->
  exists el w1 t1 w2,
    renderSurfaceContent widget surfaceId (JSObject o) w = Returned tt w1 t1 /\
    Append el (JSObject o) ∈ t1 /\
    renderSurfaceContent widget surfaceId (JSObject o) w1
      = Returned tt w2 [RemoveChildren el; Append el (JSObject o)] /\
    dom w2 = dom_append el (JSObject o) (dom_removeChildren el (dom w1)) /\
    Surface.cacheState <$> surfaces_ (this w2) !! surfaceId
      = Some (Some Cache.NOT_CACHEABLE).
Proof.
  intros Hreg.
  destruct (renderSurfaceContent_stale widget w surfaceId s (JSObject o))
    as (el & d & pre & Hrun & _); [done|done|right; by left|].
  set (s1 := Surface.set_cacheState _ _) in Hrun.
  set (w1 := withSurface w surfaceId s1 _) in Hrun.
  destruct (renderSurfaceContent_stale widget w1 surfaceId s1 (JSObject o))
    as (el' & d' & pre' & Hrun' & _ & Hsame);
    [apply lookup_insert_eq|done|right; by left|].
  destruct (Hsame el) as (<- & -> & ->); [done|].
  exists el, w1. eexists _, _. split; [exact Hrun|]. split.
  { apply elem_of_app. right. apply elem_of_cons. right. by apply elem_of_cons; left. }
  split; [exact Hrun'|]. simpl. split; [done|]. by rewrite lookup_insert_eq.
Qed.


(** X14: registering a new id and removing it again restores the
    registry, but not the index: the id stays listed under every one of
    the [renderAttrs] it was registered with. *)
Theorem addSurface_removeSurface_round_trip
    widget w surfaceId (config : Surface.t) :
  surfaces_ (this w) !! surfaceId = None ->
  exists w1 w2 t,
    addSurface surfaceId (Some config) w = Returned tt w1 [] /\
    removeSurface widget surfaceId w1 = Returned tt w2 t /\
    surfaces_ (this w2) = surfaces_ (this w) /\
    (forall attr, attr ∈ Surface.renderAttrs config ->
       surfaceId ∈ default ∅ (surfacesRenderAttrs_ (this w2) !! attr) /\
       surfaces_ (this w2) !! surfaceId = None).
Proof.
  intros Hfresh.
  destruct (addSurface_spec w surfaceId (Some config)) as (index & Hadd & Hindex).
  set (w1 := mkWorld _ (dom w)) in Hadd.
  destruct (removeSurface_returns widget w1 surfaceId) as (d & t & Hremove).
  exists w1. eexists _, t. split; [exact Hadd|]. split; [exact Hremove|].
  simpl. rewrite delete_insert_id by done. split; [done|].
  intros attr Hin. split; [|done].
  rewrite Hindex. simpl. rewrite decide_True by done.
  apply elem_of_union. right. by apply elem_of_singleton.
Qed.

(** *** Attribute changes and synchronization *)


Lemma fireAttrsChanges_undefined_loop widget
    (l : list (jsstring * option Change)) w :
  (forall attr change, (attr, change) ∈ l -> change = None) ->
  exists w2 t2,
    forIn l (fun '(attr, change) =>
               if decide (attr ∈ ATTRS_SYNC_MERGED widget)
               then fireAttrChange_ widget attr change
               else mret tt) w = Returned tt w2 t2 /\
    (forall ev, ev ∈ t2 ->
       exists attr nv,
         ev = SyncCall attr nv JSUndefined /\
         (attr, None) ∈ l /\
         attr ∈ ATTRS_SYNC_MERGED widget /\
         is_Some (syncMethod widget attr)) /\
    (forall attr, (attr, None) ∈ l ->
       attr ∈ ATTRS_SYNC_MERGED widget ->
       is_Some (syncMethod widget attr) ->
       exists nv, SyncCall attr nv JSUndefined ∈ t2) /\
    ((forall attr fn nv pv w0,
        syncMethod widget attr = Some fn ->
        attrs (this (fn nv pv w0)) = attrs (this w0)) ->
     attrs (this w2) = attrs (this w) /\
     forall attr nv pv, SyncCall attr nv pv ∈ t2 ->
       nv = default JSUndefined (attrs (this w) !! attr)).
Proof.
  revert w. induction l as [|[attr change] rest IH]; intros w Hnone.
  - exists w, []. split; [done|].
    split; [by intros ? ?%elem_of_nil|].
    split; [by intros ? ?%elem_of_nil|].
    intros _. split; [done|]. by intros ? ? ? ?%elem_of_nil.
  - assert (change = None) as -> by (apply (Hnone attr); by left).
    assert (Hstep : exists w' t,
      (if decide (attr ∈ ATTRS_SYNC_MERGED widget)
       then fireAttrChange_ widget attr None
       else mret tt) w = Returned tt w' t /\
      (forall ev, ev ∈ t ->
         ev = SyncCall attr (default JSUndefined (attrs (this w) !! attr)) JSUndefined /\
         attr ∈ ATTRS_SYNC_MERGED widget /\
         is_Some (syncMethod widget attr)) /\
      (attr ∈ ATTRS_SYNC_MERGED widget -> is_Some (syncMethod widget attr) ->
       exists nv, SyncCall attr nv JSUndefined ∈ t) /\
      ((forall attr fn nv pv w0,
          syncMethod widget attr = Some fn ->
          attrs (this (fn nv pv w0)) = attrs (this w0)) ->
       attrs (this w') = attrs (this w))).
    { destruct (decide (attr ∈ ATTRS_SYNC_MERGED widget)) as [Hsync|Hsync].
      2:{ exists w, []. split; [done|]. split; [by intros ? ?%elem_of_nil|done]. }
      unfold fireAttrChange_.
      destruct (syncMethod widget attr) as [fn|] eqn:Hfn.
      2:{ exists w, []. split; [done|].
          split; [by intros ? ?%elem_of_nil|]. split; [|done]. by intros _ [? ?]. }
      eexists _, _. split; [reflexivity|]. split; [|split].
      - intros ev ->%list_elem_of_singleton. split; [done|].
        split; [done|by eexists].
      - intros _ _. eexists. by apply list_elem_of_singleton.
      - intros Hkeep. simpl. by apply (Hkeep attr). }
    destruct Hstep as (w' & t & Hrun & Hev & Hcall & Hattrs).
    destruct (IH w') as (w2 & t2 & Hrest & Hev2 & Hcall2 & Hattrs2).
    { intros a c Hin. apply (Hnone a). by right. }
    exists w2, (t ++ t2). split; [by rewrite forIn_cons, Hrun, Hrest|].
    split; [|split].
    + intros ev [Hin|Hin]%elem_of_app.
      * destruct (Hev ev Hin) as (-> & ? & ?).
        eexists attr, _. split; [done|]. split; [by left|done].
      * destruct (Hev2 ev Hin) as (attr' & nv & -> & ? & ? & ?).
        exists attr', nv. split; [done|]. split; [by right|done].
    + intros attr' [[= ->]|Hin]%elem_of_cons Hsync Hfn.
      * destruct (Hcall Hsync Hfn) as [nv Hnv]. exists nv.
        apply elem_of_app. by left.
      * destruct (Hcall2 attr' Hin Hsync Hfn) as [nv Hnv]. exists nv.
        apply elem_of_app. by right.
    + intros Hkeep. destruct (Hattrs2 Hkeep) as [Ha2 Hv2].
      rewrite Ha2, (Hattrs Hkeep). split; [done|].
      intros attr' nv pv [Hin|Hin]%elem_of_app.
      * by destruct (Hev _ Hin) as ([= -> -> _] & _).
      * rewrite <- (Hattrs Hkeep). by apply (Hv2 attr' nv pv).
Qed.

Lemma fireAttrsChanges_syncChanges widget w :
  exists w2 t2,
    fireAttrsChanges_ widget (syncChanges widget) w = Returned tt w2 t2 /\
    (forall ev, ev ∈ t2 ->
       exists attr nv,
         ev = SyncCall attr nv JSUndefined /\
         attr ∈ ATTRS_SYNC_MERGED widget /\
         is_Some (syncMethod widget attr)) /\
    (forall attr,
       attr ∈ ATTRS_SYNC_MERGED widget ->
       is_Some (syncMethod widget attr) ->
       exists nv, SyncCall attr nv JSUndefined ∈ t2) /\
    ((forall attr fn nv pv w0,
        syncMethod widget attr = Some fn ->
        attrs (this (fn nv pv w0)) = attrs (this w0)) ->
     attrs (this w2) = attrs (this w) /\
     forall attr nv pv, SyncCall attr nv pv ∈ t2 ->
       nv = default JSUndefined (attrs (this w) !! attr)).
Proof.
  unfold fireAttrsChanges_.
  assert (Hlook : forall attr change,
    (attr, change) ∈ map_to_list (syncChanges widget) <->
    attr ∈ ATTRS_SYNC_MERGED widget /\ change = None).
  { intros attr change. rewrite elem_of_map_to_list. unfold syncChanges.
    rewrite lookup_gset_to_gmap_Some. naive_solver. }
  destruct (fireAttrsChanges_undefined_loop widget
              (map_to_list (syncChanges widget)) w)
    as (w2 & t2 & Hrun & Hev & Hcall & Hkeep).
  { intros attr change Hin. by apply Hlook in Hin as [_ ?]. }
  exists w2, t2. split; [done|]. split; [|split; [|done]].
  - intros ev Hin. destruct (Hev ev Hin) as (attr & nv & -> & _ & ? & ?).
    by exists attr, nv.
  - intros attr Hsync Hfn. apply Hcall; [|done..]. by apply Hlook.
Qed.

(** X16: the synchronization pass of [render] and [decorate], which
    hands the merged sync set itself to [fireAttrsChanges_], always
    returns; it calls the synchronization method of every attribute of
    the set that has one, and of no other attribute, and every call gets
    [undefined] as previous value.  When the synchronization methods
    leave the attribute values alone, every call gets the current value
    of its attribute ([undefined] when it has none) as new value. *)
Theorem fireAttrsChanges_at_render_time widget w :
  exists w2 t2,
    fireAttrsChanges_ widget (syncChanges widget) w = Returned tt w2 t2 /\
    (forall ev, ev ∈ t2 ->
       exists attr nv,
         ev = SyncCall attr nv JSUndefined /\
         attr ∈ ATTRS_SYNC_MERGED widget /\
         is_Some (syncMethod widget attr)) /\
    (forall attr,
       attr ∈ ATTRS_SYNC_MERGED widget ->
       is_Some (syncMethod widget attr) ->
       exists nv, SyncCall attr nv JSUndefined ∈ t2) /\
    ((forall attr fn nv pv w0,
        syncMethod widget attr = Some fn ->
        attrs (this (fn nv pv w0)) = attrs (this w0)) ->
     forall attr nv pv, SyncCall attr nv pv ∈ t2 ->
       nv = default JSUndefined (attrs (this w) !! attr)).
Proof.
  destruct (fireAttrsChanges_syncChanges widget w)
    as (w2 & t2 & Hrun & Hev & Hcall & Hkeep).
  exists w2, t2. split; [done|]. split; [done|]. split; [done|].
  intros H. by destruct (Hkeep H).
Qed.

(** *** The lifecycle *)

Lemma attach_spec widget w (opt_parentElement opt_siblingElement : ElementArg) :
  attach widget opt_parentElement opt_siblingElement w
    = let el := element (this w) in
      let d := element_setId el (id (this w)) (dom w) in
      if truthy opt_siblingElement || bool_decide (element_parentNode el d = None)
      then
        let parent := default (document_body d) (dom_toElement opt_parentElement d) in
        let sibling := dom_toElement opt_siblingElement d in
        Returned tt
          (attached widget
             (mkWorld (set_inDocument true (this w))
                (node_insertBefore parent el sibling d)))
          [InsertBefore parent el sibling; HookCall Attached]
      else
        Returned tt
          (attached widget (mkWorld (set_inDocument true (this w)) d))
          [HookCall Attached].
Proof.
  unfold attach, renderElement_, runHook, read, updateDom, updateThis, update, emit.
  cbv [mbind M_bind mret M_ret]. simpl.
  by destruct (truthy opt_siblingElement || _).
Qed.




Lemma attach_returns widget w (opt_parentElement opt_siblingElement : ElementArg) :
  exists d t,
    attach widget opt_parentElement opt_siblingElement w
      = Returned tt
          (attached widget (mkWorld (set_inDocument true (this w)) d))
          (t ++ [HookCall Attached]) /\
    (forall ev, ev ∈ t ->
       exists parent sibling, ev = InsertBefore parent (element (this w)) sibling).
Proof.
  rewrite attach_spec. cbv zeta.
  destruct (truthy opt_siblingElement || _).
  - eexists _, [_]. split; [done|].
    intros ev ->%list_elem_of_singleton. by eexists _, _.
  - eexists _, []. split; [done|]. by intros ? ?%elem_of_nil.
Qed.



(** *** Decoration *)

Lemma seed_step widget w surfaceId (s : Surface.t) :
  surfaces_ (this w) !! surfaceId = Some s ->
  exists el d pre,
    (surface ← getSurface surfaceId;
     el ← getSurfaceElement widget surfaceId;
     match el, surface with
     | Some el, Some _ =>
         innerHTML ← read (fun w => element_innerHTML el (dom w));
         updateSurface surfaceId
           (Surface.set_cacheState
              (computeSurfaceCacheState_ (JSString (html_compress innerHTML))))
     | _, _ => throw TypeError
     end) w
      = Returned tt
          (withSurface w surfaceId
             (Surface.mk
                (Some (string.hashCode (html_compress (element_innerHTML el d))))
                (Some el) (Surface.renderAttrs s)) d)
          pre /\
    (pre = [] /\ d = dom w \/ pre = [CreateElement el]) /\
    (forall el', Surface.element s = Some el' -> el' = el /\ d = dom w /\ pre = []).
Proof.
  intros Hreg.
  destruct (getSurfaceElement_registered widget w surfaceId s Hreg)
    as (el & d & pre & Hget & Hpre & Hsame).
  exists el, d, pre. split; [|done].
  unfold getSurface, read. unfold mbind, M_bind at 1. rewrite Hreg.
  unfold M_bind at 1. rewrite Hget.
  unfold updateSurface, updateThis, update. cbv [mbind M_bind].
  simpl. f_equal; [|by rewrite app_nil_r].
  unfold withSurface. simpl.
  rewrite (alter_lookup_insert _ _ (Surface.set_element el s))
    by apply lookup_insert_eq.
  by rewrite insert_insert_eq.
Qed.

Lemma seed_loop widget (keys : list jsstring) w :
  NoDup keys ->
  (forall k, k ∈ keys -> is_Some (surfaces_ (this w) !! k)) ->
  exists w' t,
    forIn keys (fun surfaceId =>
      surface ← getSurface surfaceId;
      el ← getSurfaceElement widget surfaceId;
      match el, surface with
      | Some el, Some _ =>
          innerHTML ← read (fun w => element_innerHTML el (dom w));
          updateSurface surfaceId
            (Surface.set_cacheState
               (computeSurfaceCacheState_ (JSString (html_compress innerHTML))))
      | _, _ => throw TypeError
      end) w = Returned tt w' t /\
    (attrs (this w') = attrs (this w) /\
     inDocument (this w') = inDocument (this w) /\
     surfacesRenderAttrs_ (this w') = surfacesRenderAttrs_ (this w)) /\
    (forall k, k ∉ keys -> surfaces_ (this w') !! k = surfaces_ (this w) !! k) /\
    (forall k s, k ∈ keys -> surfaces_ (this w) !! k = Some s ->
       exists el d,
         surfaces_ (this w') !! k
           = Some (Surface.mk
                     (Some (string.hashCode (html_compress (element_innerHTML el d))))
                     (Some el) (Surface.renderAttrs s)) /\
         (forall el0, Surface.element s = Some el0 -> el0 = el) /\
         (t = [] -> d = dom w)) /\
    (forall ev, ev ∈ t -> exists el, ev = CreateElement el) /\
    (t = [] -> dom w' = dom w) /\
    ((forall k s, k ∈ keys -> surfaces_ (this w) !! k = Some s ->
        is_Some (Surface.element s)) -> t = []).
Proof.
  intros Hnodup. revert w.
  induction Hnodup as [|k rest Hfresh Hnodup IH]; intros w Hreg.
  - exists w, []. split; [done|]. split; [done|]. split; [done|].
    split; [by intros ? ? ?%elem_of_nil|].
    split; [by intros ? ?%elem_of_nil|done].
  - destruct (Hreg k) as [s Hs]; [by left|].
    destruct (seed_step widget w k s Hs) as (el & d & pre & Hstep & Hpre & Hsame).
    set (seeded := Surface.mk _ (Some el) (Surface.renderAttrs s)) in Hstep.
    destruct (IH (withSurface w k seeded d))
      as (w' & t & Hrest & (Ha & Hi & Hx) & Hframe & Hin & Hev & Hdom & Hheld).
    { intros k' Hk'. simpl. rewrite lookup_insert_ne; [|set_solver].
      apply Hreg. by right. }
    simpl in Ha, Hi, Hx, Hdom.
    exists w', (pre ++ t). split; [by rewrite forIn_cons, Hstep, Hrest|].
    split; [done|].
    assert (Hhere : surfaces_ (this w') !! k = Some seeded).
    { rewrite Hframe by done. simpl. apply lookup_insert_eq. }
    split; [|split; [|split; [|split]]].
    + intros k' Hk'. rewrite Hframe by set_solver.
      simpl. apply lookup_insert_ne. set_solver.
    + intros k' s' Hk' Hs'. destruct (decide (k' = k)) as [->|Hne].
      * assert (s' = s) as -> by congruence.
        exists el, d. split; [done|]. split.
        -- intros el0 Hel0. by destruct (Hsame el0 Hel0).
        -- intros [-> _]%app_eq_nil. by destruct Hpre as [[_ ?]|?].
      * destruct (Hin k' s') as (el' & d' & Hs1 & Hel' & Hd').
        { set_solver. }
        { simpl. by rewrite lookup_insert_ne. }
        exists el', d'. split; [done|]. split; [done|].
        intros [-> ->]%app_eq_nil. rewrite Hd' by done. simpl.
        by destruct Hpre as [[_ ?]|?].
    + intros ev [Hc|Hc]%elem_of_app; [|by apply Hev].
      destruct Hpre as [[-> _]| ->]; [by apply elem_of_nil in Hc|].
      apply list_elem_of_singleton in Hc. by exists el.
    + intros [-> ->]%app_eq_nil. rewrite Hdom by done.
      by destruct Hpre as [[_ ?]|?].
    + intros Hall. destruct (Hall k s) as [el0 Hel0]; [by left|done|].
      destruct (Hsame el0 Hel0) as (_ & _ & ->). simpl.
      apply Hheld. intros k' s' Hk' Hs'. apply (Hall k' s'); [by right|].
      simpl in Hs'. rewrite lookup_insert_ne in Hs'; [done|set_solver].
Qed.


Lemma renderSurfacesContent_cached widget (surfaces : list jsstring) w :
  (forall k, k ∈ surfaces ->
     core.isDefAndNotNull (getSurfaceContent widget k (attrs (this w))) = false \/
     exists s str,
       surfaces_ (this w) !! k = Some s /\
       getSurfaceContent widget k (attrs (this w)) = JSString str /\
       Surface.cacheState s = Some (string.hashCode str)) ->
  renderSurfacesContent_ widget surfaces w = Returned tt w [].
Proof.
  induction surfaces as [|k rest IH]; intros Hall; [done|].
  rewrite renderSurfacesContent_cons.
  assert (renderSurfaceContent widget k
            (getSurfaceContent widget k (attrs (this w))) w = Returned tt w [])
    as ->.
  { destruct (Hall k) as [Hnull|(s & str & Hs & -> & Hc)]; [by left| |].
    - by apply renderSurfaceContent_absent_content.
    - by apply (renderSurfaceContent_cached _ _ _ s). }
  rewrite IH; [done|]. intros k' Hk'. apply Hall. by right.
Qed.

(** X21: [decorate] on a component that is not in the document always
    returns, running the [decorateInternal] hook first and the
    [attached] hook last, the latter on a component whose [inDocument]
    flag is set.  When, after [decorateInternal], every surface holds
    its element and its content is absent or a string with the hash code
    of the compressed [innerHTML] of that element, decoration adopts the
    markup as it is: it creates no element, removes no children and
    appends nothing. *)
Theorem decorate_adopts_matching_markup widget w :
  inDocument (this w) = false ->
  exists w3 d t,
    decorate widget w
      = Returned tt
          (attached widget (mkWorld (set_inDocument true (this w3)) d))
          (HookCall DecorateInternal :: t ++ [HookCall Attached]) /\
    ((forall k s,
        surfaces_ (this (decorateInternal widget w)) !! k = Some s ->
        exists el,
          Surface.element s = Some el /\
          (core.isDefAndNotNull
             (getSurfaceContent widget k (attrs (this (decorateInternal widget w))))
           = false \/
           exists str,
             getSurfaceContent widget k (attrs (this (decorateInternal widget w)))
               = JSString str /\
             string.hashCode str
               = string.hashCode
                   (html_compress
                      (element_innerHTML el (dom (decorateInternal widget w)))))) ->
     forall ev, ev ∈ t ->
       (exists attr nv, ev = SyncCall attr nv JSUndefined) \/
       (exists parent sibling, ev = InsertBefore parent (element (this w3)) sibling)).
Proof.
  intros Hin.
  set (w0 := decorateInternal widget w).
  assert (Hkeys : forall w k, k ∈ (map_to_list (surfaces_ (this w))).*1
                              <-> is_Some (surfaces_ (this w) !! k)).
  { intros w' k. split.
    - intros (p & -> & Hp)%list_elem_of_fmap. destruct p as [k s].
      apply elem_of_map_to_list in Hp. by eexists.
    - intros [s Hs]. apply list_elem_of_fmap. exists (k, s).
      split; [done|]. by apply elem_of_map_to_list. }
  destruct (seed_loop widget (map_to_list (surfaces_ (this w0))).*1 w0)
    as (w1 & t1 & Hseed & (Ha1 & _ & _) & Hframe1 & Hin1 & _ & Hdom1 & Hheld1).
  { apply NoDup_fst_map_to_list. }
  { intros k Hk. by apply Hkeys. }
  set (keys := (map_to_list (surfaces_ (this w1))).*1).
  destruct (renderSurfacesContent_spec widget keys w1)
    as (w2 & t2 & Hrender & _).
  { apply NoDup_fst_map_to_list. }
  { intros k Hk. by apply Hkeys. }
  destruct (fireAttrsChanges_syncChanges widget w2)
    as (w3 & t3 & Hfire & Hev3 & _ & _).
  destruct (attach_returns widget w3 NoElement NoElement)
    as (d & t4 & Hattach & Hev4).
  exists w3, d, (t1 ++ t2 ++ t3 ++ t4). split.
  { unfold decorate, runHook, emit, update.
    unfold mbind at 1, M_bind at 1, read at 1. rewrite Hin.
    unfold computeSurfacesCacheStateFromDom_.
    unfold mbind, M_bind, read. fold w0.
    unfold mbind, M_bind, read in Hseed. rewrite Hseed.
    cbv beta iota. fold keys. rewrite Hrender, Hfire, Hattach.
    simpl. by rewrite <- !app_assoc. }
  intros Hmatch.
  assert (t1 = []) as ->.
  { apply Hheld1. intros k s _ Hs. destruct (Hmatch k s Hs) as (el & -> & _).
    by eexists. }
  assert (t2 = []) as ->.
  { rewrite renderSurfacesContent_cached in Hrender; [by injection Hrender|].
    intros k Hk. apply Hkeys in Hk as [s1 Hs1].
    destruct (surfaces_ (this w0) !! k) as [s|] eqn:Hs.
    - destruct (Hmatch k s Hs) as (el & Hel & Hcontent).
      destruct (Hin1 k s) as (el' & d' & Hs1' & Hel' & Hd'); [|done|].
      { apply Hkeys. by eexists. }
      rewrite Ha1.
      destruct Hcontent as [Hnull|(str & Hstr & Hhash)]; [by left|].
      right. eexists _, str. split; [exact Hs1'|]. split; [done|]. simpl.
      rewrite <- (Hel' el Hel), (Hd' eq_refl). by rewrite Hhash.
    - rewrite Hframe1 in Hs1; [congruence|].
      intros Hk. apply Hkeys in Hk as [? ?]. congruence. }
  simpl. intros ev [Hc|Hc]%elem_of_app.
  - left. destruct (Hev3 _ Hc) as (attr & nv & -> & _). by exists attr, nv.
  - right. by apply Hev4.
Qed.

End MoreComponentFacts.

(** ** The further facts at work on the sample widget *)

Section MoreWitnesses.
Import Component.

Lemma hashCode_app_witness :
  string.hashCode Sample.Aa = string.hashCode Sample.BB /\
  string.hashCode (Sample.Aa ++ Sample.foo) = string.hashCode (Sample.BB ++ Sample.foo).
Proof.
  assert (H : string.hashCode Sample.Aa = string.hashCode Sample.BB) by reflexivity.
  split; [exact H|].
  destruct (hashCode_app Sample.BB Sample.foo) as [_ Hsuffix].
  exact (Hsuffix Sample.Aa H).
Defined.

Lemma replaceInterval_round_trip_witness :
  string.replaceInterval (js "hello"%string) 1 3
      (string.substring (js "hello"%string) 1 (Some 3))
    = js "hello"%string /\
  string.replaceInterval
      (string.replaceInterval (js "hello"%string) 2 2 (js "XY"%string)) 2 4 []
    = js "hello"%string.
Proof.
  destruct (replaceInterval_round_trip (js "hello"%string) (js "XY"%string) 1 3)
    as [Hsame _].
  destruct (replaceInterval_round_trip (js "hello"%string) (js "XY"%string) 2 2)
    as [_ Hinsert].
  split; [apply Hsame; lia|apply Hinsert; simpl; lia].
Defined.

Lemma getSurfaceElement_resolves_once_witness :
  surfaces_ (this Sample.created) !! Sample.a
    = Some (Surface.mk None None [Sample.foo]) /\
  exists w1,
    getSurfaceElement Sample.widget Sample.a Sample.created
      = Returned (Some 2%nat) w1 [CreateElement 2%nat] /\
    getSurfaceElement Sample.widget Sample.a w1 = Returned (Some 2%nat) w1 [].
Proof.
  assert (H : surfaces_ (this Sample.created) !! Sample.a
              = Some (Surface.mk None None [Sample.foo]))
    by (vm_compute; reflexivity).
  split; [exact H|].
  destruct (getSurfaceElement_resolves_once Sample.widget Sample.created Sample.a _ H)
    as (el & w1 & t1 & Hrun & Hagain & _ & Hnew).
  specialize (Hnew eq_refl). vm_compute in Hnew.
  destruct Hnew as (Hel & _ & Ht). subst el t1.
  exists w1. split; [exact Hrun|exact Hagain].
Defined.

Lemma renderSurfaceContent_object_rerenders_every_time_witness :
  surfaces_ (this Sample.created) !! Sample.a
    = Some (Surface.mk None None [Sample.foo]) /\
  exists el w1 t1 w2,
    renderSurfaceContent Sample.widget Sample.a (JSObject 7) Sample.created
      = Returned tt w1 t1 /\
    Append el (JSObject 7) ∈ t1 /\
    renderSurfaceContent Sample.widget Sample.a (JSObject 7) w1
      = Returned tt w2 [RemoveChildren el; Append el (JSObject 7)].
Proof.
  assert (H : surfaces_ (this Sample.created) !! Sample.a
              = Some (Surface.mk None None [Sample.foo]))
    by (vm_compute; reflexivity).
  split; [exact H|].
  destruct (renderSurfaceContent_object_rerenders_every_time
              Sample.widget Sample.created Sample.a _ 7 H)
    as (el & w1 & t1 & w2 & Hrun & Happend & Hagain & _).
  exists el, w1, t1, w2. split; [exact Hrun|]. split; [exact Happend|exact Hagain].
Defined.


Lemma addSurface_removeSurface_round_trip_witness :
  surfaces_ (this Sample.rendered) !! Sample.foo = None /\
  exists w1 w2 t,
    addSurface Sample.foo (Some (Surface.mk None None [Sample.bar])) Sample.rendered
      = Returned tt w1 [] /\
    removeSurface Sample.widget Sample.foo w1 = Returned tt w2 t /\
    surfaces_ (this w2) = surfaces_ (this Sample.rendered) /\
    Sample.foo ∈ default ∅ (surfacesRenderAttrs_ (this w2) !! Sample.bar).
Proof.
  assert (Hnone : surfaces_ (this Sample.rendered) !! Sample.foo = None)
    by (vm_compute; reflexivity).
  split; [exact Hnone|].
  destruct (addSurface_removeSurface_round_trip
              Sample.widget Sample.rendered Sample.foo
              (Surface.mk None None [Sample.bar]) Hnone)
    as (w1 & w2 & t & Hadd & Hremove & Hsame & Hidx).
  exists w1, w2, t. split; [exact Hadd|]. split; [exact Hremove|].
  split; [exact Hsame|].
  apply (Hidx Sample.bar). simpl. apply list_elem_of_singleton. reflexivity.
Defined.


Lemma fireAttrsChanges_at_render_time_witness :
  exists w2 t2,
    fireAttrsChanges_ Sample.widget (syncChanges Sample.widget) Sample.created
      = Returned tt w2 t2 /\
    (exists nv, SyncCall Sample.foo nv JSUndefined ∈ t2) /\
    (forall attr nv pv, SyncCall attr nv pv ∈ t2 ->
       nv = default JSUndefined (attrs (this Sample.created) !! attr)).
Proof.
  destruct (fireAttrsChanges_at_render_time Sample.widget Sample.created)
    as (w2 & t2 & Hrun & _ & Hall & Hvalues).
  exists w2, t2. split; [exact Hrun|]. split.
  - apply Hall; [apply elem_of_singleton; reflexivity|].
    eexists. vm_compute. reflexivity.
  - apply Hvalues. intros attr fn nv pv w0 Hfn. simpl in Hfn.
    destruct (bool_decide (attr = Sample.foo)); [|discriminate].
    injection Hfn as <-. reflexivity.
Defined.



Lemma decorate_adopts_matching_markup_witness :
  inDocument (this SampleDetached.world) = false /\
  exists (w3 : World SimpleDom.t) d t,
    decorate Sample.widget SampleDetached.world
      = Returned tt
          (attached Sample.widget (mkWorld (set_inDocument true (this w3)) d))
          (HookCall DecorateInternal :: t ++ [HookCall Attached]) /\
    forall ev, ev ∈ t ->
      (exists attr nv, ev = SyncCall attr nv JSUndefined) \/
      (exists parent sibling, ev = InsertBefore parent (element (this w3)) sibling).
Proof.
  assert (Hout : inDocument (this SampleDetached.world) = false)
    by (vm_compute; reflexivity).
  assert (Hsurfaces :
            surfaces_ (this (decorateInternal Sample.widget SampleDetached.world))
            = {[ Sample.a := Surface.mk (Some 2112) (Some 3%nat) [Sample.foo];
                 Sample.b := Surface.mk (Some 2112) (Some 2%nat) [Sample.bar] ]})
    by (vm_compute; reflexivity).
  split; [exact Hout|].
  destruct (decorate_adopts_matching_markup Sample.widget SampleDetached.world Hout)
    as (w3 & d & t & Hrun & Hadopt).
  exists w3, d, t. split; [exact Hrun|].
  apply Hadopt. intros k s Hs. rewrite Hsurfaces in Hs.
  destruct (decide (k = Sample.a)) as [->|Ha].
  - rewrite lookup_insert_eq in Hs. injection Hs as <-.
    exists 3%nat. split; [reflexivity|]. right. exists Sample.Aa.
    split; vm_compute; reflexivity.
  - rewrite lookup_insert_ne in Hs by done.
    destruct (decide (k = Sample.b)) as [->|Hb].
    + rewrite lookup_singleton_eq in Hs. injection Hs as <-.
      exists 2%nat. split; [reflexivity|]. right. exists Sample.BB.
      split; vm_compute; reflexivity.
    + rewrite lookup_singleton_ne in Hs by done. discriminate.
Defined.

End MoreWitnesses.
